(** * Reservation / capacity accounting of the event-management server

    A shallow embedding of the server-side reservation core:

    - [models/Event.ts] and [models/Reservation.ts] (rows and instance methods),
    - [controllers/reservationController.ts] ([createReservation],
      [cancelReservation], [clearEventCaches]),
    - [controllers/eventController.ts] ([updateEvent], capacity resize),
    - [config/redis.ts] ([cacheUtils.del], [cacheUtils.delPattern], [CACHE_KEYS]),
    - [middleware/validation.ts] (the [maxCapacity] rule of [validateEventUpdate]).

    JavaScript numbers that hold ids, counters and timestamps are integers
    here ([Z]); the two SQL tables are finite maps from primary key to row;
    a Sequelize transaction is a small state-and-early-exit monad whose
    early exit stands for [transaction.rollback()] followed by the HTTP
    answer.  Book-keeping timestamps ([createdAt], [updatedAt],
    [reservationDate]) are left out: no controller reads them.  Of the
    [catch] branches, which answer 500, those are modelled that a request
    can bring about by its own content: [updateEvent] writing a capacity
    that the rule [maxCapacity: { min: 1 }] or the INTEGER columns refuse,
    [createEvent] failing a validator, [deleteEvent] stopped by the foreign
    key.  Failures of the storage for reasons outside the request (lost
    connection, deadlock, timeout) are not, nor are the validators of
    [Event.init] on [name], [eventDate] and [onlineLink] when
    [event.update] writes those columns. *)

From Stdlib Require Import ZArith Lia Ascii String.
From stdpp Require Import gmap strings list fin_maps pretty.

Local Open Scope Z_scope.

(** ** Data model *)

Inductive Role := RoleUser | RoleAdmin.

Inductive ReservationStatus := CONFIRMED | CANCELED.

#[global] Instance Role_eq_dec : EqDecision Role.
Proof. solve_decision. Defined.

#[global] Instance ReservationStatus_eq_dec : EqDecision ReservationStatus.
Proof. solve_decision. Defined.

(** [req.user] as the authentication middleware leaves it. *)
Record AuthUser := mkAuthUser {
  user_id : Z;
  role : Role
}.

(** A row of table [events] (the primary key is the key of the map). *)
Record Event := mkEvent {
  name : string;
  description : option string;
  eventDate : Z;
  location : option string;
  onlineLink : option string;
  maxCapacity : Z;
  availableSpots : Z;
  creatorId : Z
}.

(** A row of table [reservations]. *)
Record Reservation := mkReservation {
  eventId : Z;
  userId : Z;
  status : ReservationStatus
}.

Definition set_availableSpots (v : Z) (e : Event) : Event :=
  mkEvent (name e) (description e) (eventDate e) (location e) (onlineLink e)
          (maxCapacity e) v (creatorId e).

Definition set_status (s : ReservationStatus) (r : Reservation) : Reservation :=
  mkReservation (eventId r) (userId r) s.

(** The database: both tables and the sequence behind the auto-increment
    primary key of [reservations]. *)
Record DB := mkDB {
  events : gmap Z Event;
  reservations : gmap Z Reservation;
  reservations_seq : Z
}.

(** ** Instance methods of the models *)

Module EventModel.

(** [Event.hasAvailableSpots] *)
Definition hasAvailableSpots (e : Event) : bool := 0 <? availableSpots e.

(** [Event.reserveSpot]: the updated instance and the returned flag. *)
Definition reserveSpot (e : Event) : Event * bool :=
  if 0 <? availableSpots e
  then (set_availableSpots (availableSpots e - 1) e, true)
  else (e, false).

(** [Event.cancelSpot] *)
Definition cancelSpot (e : Event) : Event :=
  if availableSpots e <? maxCapacity e
  then set_availableSpots (availableSpots e + 1) e
  else e.

End EventModel.

Module ReservationModel.

(** [Reservation.cancel] *)
Definition cancel (r : Reservation) : Reservation := set_status CANCELED r.

(** [Reservation.confirm] *)
Definition confirm (r : Reservation) : Reservation := set_status CONFIRMED r.

(** [Reservation.isActive] *)
Definition isActive (r : Reservation) : bool := bool_decide (status r = CONFIRMED).

End ReservationModel.

(** ** HTTP answers *)

Inductive Payload :=
| NoPayload
| ReservationPayload (id : Z) (r : option Reservation)
| EventPayload (id : Z) (e : option Event).

Inductive Body :=
| ErrorBody (error : string)
| MessageBody (message : string) (payload : Payload).

Record Response := mkResponse {
  res_status : Z;
  res_json : Body
}.

Definition json_error (code : Z) (msg : string) : Response :=
  mkResponse code (ErrorBody msg).

(** The answer of every [catch] branch. *)
Definition internal_error : Response := json_error 500 "Internal server error".

(** ** Transactions *)

(** What a transaction body does on a database: it goes on with a value
    and a (possibly written) database, or it rolls back and answers. *)
Inductive Outcome (A : Type) : Type :=
| Next (a : A) (db : DB)
| Rollback (res : Response).

Arguments Next {A} a db.
Arguments Rollback {A} res.

Definition Tx (A : Type) : Type := DB → Outcome A.

Definition tx_ret {A} (a : A) : Tx A := λ db, Next a db.

Definition tx_bind {A B} (m : Tx A) (k : A → Tx B) : Tx B :=
  λ db, match m db with
        | Next a db' => k a db'
        | Rollback res => Rollback res
        end.

(** [await transaction.rollback(); res.status(..).json(..); return;] *)
Definition rollback_with {A} (res : Response) : Tx A := λ _, Rollback res.

Notation "x <~ m ;; k" := (tx_bind m (λ x, k))
  (at level 62, m at next level, right associativity).
Notation "m ;;; k" := (tx_bind m (λ _, k))
  (at level 62, right associativity).

(** [transaction.commit()] on [Next], the untouched database on [Rollback]. *)
Definition run_tx {A} (t : Tx A) (db : DB) : (Response + A) * DB :=
  match t db with
  | Next a db' => (inr a, db')
  | Rollback res => (inl res, db)
  end.

(** *** The queries the controllers issue *)

Definition Event_findByPk (id : Z) : Tx (option Event) :=
  λ db, Next (events db !! id) db.

Definition Reservation_findByPk (id : Z) : Tx (option Reservation) :=
  λ db, Next (reservations db !! id) db.

(** The [where] clause [{ eventId, userId, status: CONFIRMED }]. *)
Definition confirmed_for (eid uid : Z) (r : Reservation) : bool :=
  (eventId r =? eid) && (userId r =? uid) && bool_decide (status r = CONFIRMED).

Definition matching (P : Reservation → bool) (rs : gmap Z Reservation)
  : gmap Z Reservation :=
  filter (λ kr, P kr.2 = true) rs.

(** [Reservation.findOne({ where })]: some matching row, if there is one. *)
Definition Reservation_findOne (P : Reservation → bool) : Tx (option (Z * Reservation)) :=
  λ db, Next (head (map_to_list (matching P (reservations db)))) db.

(** [Reservation.create]: the row gets the next value of the sequence. *)
Definition Reservation_create (r : Reservation) : Tx Z :=
  λ db, let id := reservations_seq db in
        Next id (mkDB (events db) (<[id := r]> (reservations db)) (id + 1)).

(** [reservation.update({ status })] on the row with key [id]. *)
Definition Reservation_update_status (id : Z) (s : ReservationStatus) : Tx unit :=
  λ db, Next tt (mkDB (events db) (alter (set_status s) id (reservations db))
                      (reservations_seq db)).

(** [event.increment("availableSpots", { by })]: Sequelize issues
    [UPDATE events SET availableSpots = availableSpots + by WHERE id = ..],
    so the addition happens on the stored value, not on the instance that
    was read earlier. *)
Definition Event_increment (id : Z) (by_ : Z) : Tx unit :=
  λ db, Next tt (mkDB (alter (λ e, set_availableSpots (availableSpots e + by_) e)
                             id (events db))
                      (reservations db) (reservations_seq db)).

(** [event.decrement("availableSpots", { by })], likewise. *)
Definition Event_decrement (id : Z) (by_ : Z) : Tx unit :=
  λ db, Next tt (mkDB (alter (λ e, set_availableSpots (availableSpots e - by_) e)
                             id (events db))
                      (reservations db) (reservations_seq db)).

(** ** The Redis cache ([config/redis.ts]) *)

Inductive RedisCmd :=
| DEL (keys : list string)
| KEYS (pattern : string).

Inductive LogLine :=
| ConsoleLog (line : string)
| ConsoleError (line : string).

(** Everything a request handler can touch: the database, the keys held in
    Redis, the console, the commands sent to Redis so far, and the fate of
    the Redis commands still to come ([true]: the command is rejected; when
    the list is used up every command goes through). *)
Record World := mkWorld {
  database : DB;
  cache : gset string;
  console : list LogLine;
  redis_sent : list RedisCmd;
  redis_faults : list bool
}.

Definition set_database (d : DB) (w : World) : World :=
  mkWorld d (cache w) (console w) (redis_sent w) (redis_faults w).

Definition console_add (l : LogLine) (w : World) : World :=
  mkWorld (database w) (cache w) (console w ++ [l]) (redis_sent w) (redis_faults w).

(** Sending one command: it is recorded, and the next fate is used up. *)
Definition redis_send (c : RedisCmd) (w : World) : bool * World :=
  (default false (head (redis_faults w)),
   mkWorld (database w) (cache w) (console w) (redis_sent w ++ [c])
           (tail (redis_faults w))).

Definition cache_remove (ks : gset string) (w : World) : World :=
  mkWorld (database w) (cache w ∖ ks) (console w) (redis_sent w) (redis_faults w).

(** Glob matching of Redis [KEYS], for patterns made of literal
    characters, [?] and [*]. *)
Fixpoint glob_match (p s : string) {struct p} : bool :=
  match p with
  | EmptyString => match s with EmptyString => true | _ => false end
  | String c p' =>
    if Ascii.eqb c "*"%char then
      (fix star (t : string) : bool :=
         glob_match p' t ||
         match t with
         | EmptyString => false
         | String _ t' => star t'
         end) s
    else
      match s with
      | EmptyString => false
      | String d s' =>
        (Ascii.eqb c "?"%char || Ascii.eqb c d) && glob_match p' s'
      end
  end.

Module CACHE_KEYS.
Definition POPULAR_EVENTS : string := "popular_events".
Definition EVENT_DETAILS (eventId : Z) : string := "event:" +:+ pretty eventId.
Definition EVENT_LIST (page limit : Z) : string :=
  "events:page:" +:+ pretty page +:+ ":limit:" +:+ pretty limit.
End CACHE_KEYS.

Module cacheUtils.

(** [cacheUtils.del]: [try { await redis.del(key) } catch { console.error }] *)
Definition del (key : string) (w : World) : World :=
  let '(rejected, w1) := redis_send (DEL [key]) w in
  if rejected then console_add (ConsoleError "Cache delete error:") w1
  else cache_remove {[ key ]} w1.

(** [cacheUtils.delPattern] *)
Definition delPattern (pattern : string) (w : World) : World :=
  let '(rejected, w1) := redis_send (KEYS pattern) w in
  if rejected then console_add (ConsoleError "Cache pattern delete error:") w1
  else
    let keys := filter (λ k, glob_match pattern k = true) (cache w1) in
    if bool_decide (0 < size keys)%nat then
      let '(rejected2, w2) := redis_send (DEL (elements keys)) w1 in
      if rejected2 then console_add (ConsoleError "Cache pattern delete error:") w2
      else console_add
             (ConsoleLog ("Deleted " +:+ pretty (size keys) +:+
                          " cache keys matching pattern: " +:+ pattern))
             (cache_remove keys w2)
    else w1.

End cacheUtils.

(** [clearEventCaches] (the same helper in both controllers).  Its own
    [catch] is never entered, since the three helpers catch for themselves. *)
Definition clearEventCaches (eventId : Z) (w : World) : World :=
  let w1 := cacheUtils.del CACHE_KEYS.POPULAR_EVENTS w in
  let w2 := cacheUtils.del (CACHE_KEYS.EVENT_DETAILS eventId) w1 in
  let w3 := cacheUtils.delPattern "events:page:*" w2 in
  console_add (ConsoleLog ("Cleared event caches for event " +:+ pretty eventId)) w3.

(** A handler body of the shape
    [const transaction = await sequelize.transaction(); try { .. commit .. }]:
    the transaction runs on the database of the world; after a rollback
    the answer goes out and nothing else happened, after the commit the rest
    of the handler runs on the world that holds the written database. *)
Definition in_transaction {A} (t : Tx A) (done : A → World → Response * World)
    (w : World) : Response * World :=
  match run_tx t (database w) with
  | (inl res, _) => (res, w)
  | (inr a, d) => done a (set_database d w)
  end.

(** ** [controllers/reservationController.ts] *)

Definition is_admin (u : AuthUser) : bool := bool_decide (role u = RoleAdmin).

(** [createReservation] from the line after [Event.findByPk] to the last
    write, given the instance that [findByPk] returned. *)
Definition createReservation_checks (now : Z) (user : AuthUser) (eid : Z)
    (event : option Event) : Tx Z :=
  match event with
  | None => rollback_with (json_error 404 "Event not found")
  | Some event =>
    if eventDate event <=? now then
      rollback_with (json_error 400 "Cannot reserve spots for past events")
    else if is_admin user && (creatorId event =? user_id user) then
      rollback_with (json_error 400 "You cannot reserve a spot for your own event")
    else
      existingReservation <~ Reservation_findOne (confirmed_for eid (user_id user)) ;;
      match existingReservation with
      | Some _ =>
        rollback_with (json_error 409 "You already have a reservation for this event")
      | None =>
        if availableSpots event <=? 0 then
          rollback_with (json_error 400 "No available spots for this event")
        else
          rid <~ Reservation_create (mkReservation eid (user_id user) CONFIRMED) ;;
          Event_decrement eid 1 ;;;
          tx_ret rid
      end
  end.

Definition createReservation_tx (now : Z) (user : AuthUser) (eid : Z) : Tx Z :=
  event <~ Event_findByPk eid ;;
  createReservation_checks now user eid event.

Definition created (rid : Z) (d : DB) : Response :=
  mkResponse 201 (MessageBody "Reservation created successfully"
                              (ReservationPayload rid (reservations d !! rid))).

(** What follows [transaction.commit()] in [createReservation]. *)
Definition createReservation_done (eid rid : Z) (w : World) : Response * World :=
  (created rid (database w), clearEventCaches eid w).

Definition createReservation (now : Z) (req_user : option AuthUser) (eid : Z)
    (w : World) : Response * World :=
  match req_user with
  | None => (json_error 401 "Authentication required", w)
  | Some user =>
    in_transaction (createReservation_tx now user eid) (createReservation_done eid) w
  end.

(** [cancelReservation] from the line after [Reservation.findByPk] to the
    last write, given the instance that [findByPk] returned; the value is
    [reservation.eventId], which the handler needs after the commit. *)
Definition cancelReservation_checks (user : AuthUser) (rid : Z)
    (reservation : option Reservation) : Tx Z :=
  match reservation with
  | None => rollback_with (json_error 404 "Reservation not found")
  | Some reservation =>
    if negb (is_admin user) && negb (user_id user =? userId reservation) then
      rollback_with (json_error 403 "You can only cancel your own reservations")
    else if bool_decide (status reservation = CANCELED) then
      rollback_with (json_error 400 "Reservation is already canceled")
    else
      Reservation_update_status rid CANCELED ;;;
      event <~ Event_findByPk (eventId reservation) ;;
      match event with
      | Some _ => Event_increment (eventId reservation) 1
      | None => tx_ret tt
      end ;;;
      tx_ret (eventId reservation)
  end.

Definition cancelReservation_tx (user : AuthUser) (rid : Z) : Tx Z :=
  reservation <~ Reservation_findByPk rid ;;
  cancelReservation_checks user rid reservation.

Definition canceled : Response :=
  mkResponse 200 (MessageBody "Reservation canceled successfully" NoPayload).

Definition cancelReservation_done (eid : Z) (w : World) : Response * World :=
  (canceled, clearEventCaches eid w).

Definition cancelReservation (req_user : option AuthUser) (rid : Z)
    (w : World) : Response * World :=
  match req_user with
  | None => (json_error 401 "Authentication required", w)
  | Some user =>
    in_transaction (cancelReservation_tx user rid) cancelReservation_done w
  end.

(** ** [controllers/eventController.ts]: [updateEvent] *)

(** [UpdateEventRequest], every field optional. *)
Record UpdateEventRequest := mkUpdateEventRequest {
  upd_name : option string;
  upd_description : option string;
  upd_eventDate : option Z;
  upd_location : option string;
  upd_onlineLink : option string;
  upd_maxCapacity : option Z
}.

(** [updateData]: the columns that [event.update] is going to write. *)
Record UpdateData := mkUpdateData {
  ud_name : option string;
  ud_description : option string;
  ud_eventDate : option Z;
  ud_location : option string;
  ud_onlineLink : option string;
  ud_maxCapacity : option Z;
  ud_availableSpots : option Z
}.

Definition keep_or {A} (new : option A) (old : A) : A := default old new.

Definition keep_or_some {A} (new : option A) (old : option A) : option A :=
  match new with Some v => Some v | None => old end.

(** [event.update(updateData)] on one row. *)
Definition apply_update (u : UpdateData) (e : Event) : Event :=
  mkEvent (keep_or (ud_name u) (name e))
          (keep_or_some (ud_description u) (description e))
          (keep_or (ud_eventDate u) (eventDate e))
          (keep_or_some (ud_location u) (location e))
          (keep_or_some (ud_onlineLink u) (onlineLink e))
          (keep_or (ud_maxCapacity u) (maxCapacity e))
          (keep_or (ud_availableSpots u) (availableSpots e))
          (creatorId e).

(** JavaScript truthiness of an optional string and of an optional number. *)
Definition truthy_string (s : option string) : option string :=
  match s with
  | Some EmptyString => None
  | other => other
  end.

Definition truthy_number (n : option Z) : option Z :=
  match n with
  | Some 0 => None
  | other => other
  end.

(** The fields of [updateData] that do not depend on the capacity. *)
Definition plain_updateData (body : UpdateEventRequest) : UpdateData :=
  mkUpdateData (truthy_string (upd_name body)) (upd_description body)
               (upd_eventDate body) (upd_location body) (upd_onlineLink body)
               None None.

Definition with_capacity (cap spots : Z) (u : UpdateData) : UpdateData :=
  mkUpdateData (ud_name u) (ud_description u) (ud_eventDate u) (ud_location u)
               (ud_onlineLink u) (Some cap) (Some spots).

Definition below_floor (reservedSpots : Z) : Response :=
  json_error 400 ("Cannot reduce capacity below " +:+ pretty reservedSpots +:+
                  " (current reservations)").

(** The block [// Handle maxCapacity change]: the answer of the early
    return, or the completed [updateData]. *)
Definition handle_maxCapacity (body : UpdateEventRequest) (event : Event)
    (updateData : UpdateData) : Response + UpdateData :=
  match truthy_number (upd_maxCapacity body) with
  | Some maxCapacity' =>
    if bool_decide (maxCapacity' ≠ maxCapacity event) then
      let reservedSpots := maxCapacity event - availableSpots event in
      if maxCapacity' <? reservedSpots then inl (below_floor reservedSpots)
      else inr (with_capacity maxCapacity' (maxCapacity' - reservedSpots) updateData)
    else inr updateData
  | None => inr updateData
  end.

(** [req.user?.role !== "admin" && req.user?.id !== event.creatorId] *)
Definition not_owner_nor_admin (req_user : option AuthUser) (event : Event) : bool :=
  match req_user with
  | None => true
  | Some u => negb (is_admin u) && negb (user_id u =? creatorId event)
  end.

Definition Event_update (id : Z) (u : UpdateData) (d : DB) : DB :=
  mkDB (alter (apply_update u) id (events d)) (reservations d) (reservations_seq d).

(** The columns [maxCapacity] and [availableSpots] are [DataTypes.INTEGER]:
    the database takes 32-bit integers. *)
Definition INT_MIN : Z := -2147483648.
Definition INT_MAX : Z := 2147483647.

Definition fits_INTEGER (v : Z) : bool := (INT_MIN <=? v) && (v <=? INT_MAX).

(** Whether [event.update(updateData)] goes through, as far as the two
    counters go: Sequelize runs the rule [maxCapacity: { min: 1 }] of
    [Event.init] on a capacity it is about to write, and the database
    refuses a number outside the INTEGER range.  Either way
    [event.update] throws. *)
Definition update_accepted (u : UpdateData) : bool :=
  match ud_maxCapacity u with
  | Some n => (1 <=? n) && fits_INTEGER n
  | None => true
  end &&
  match ud_availableSpots u with
  | Some v => fits_INTEGER v
  | None => true
  end.

Definition updated (id : Z) (d : DB) : Response :=
  mkResponse 200 (MessageBody "Event updated successfully"
                              (EventPayload id (events d !! id))).

Definition updateEvent (req_user : option AuthUser) (id : Z)
    (body : UpdateEventRequest) (w : World) : Response * World :=
  match events (database w) !! id with
  | None => (json_error 404 "Event not found", w)
  | Some event =>
    if not_owner_nor_admin req_user event then
      (json_error 403 "You can only update your own events", w)
    else
      match handle_maxCapacity body event (plain_updateData body) with
      | inl res => (res, w)
      | inr updateData =>
        if update_accepted updateData then
          let d := Event_update id updateData (database w) in
          (updated id d, clearEventCaches id (set_database d w))
        else
          (internal_error, console_add (ConsoleError "Update event error:") w)
      end
  end.

(** The [maxCapacity] rule of [validateEventUpdate]:
    [body("maxCapacity").optional().isInt({ min: 1 })]. *)
Definition validate_maxCapacity (n : option Z) : bool :=
  match n with
  | None => true
  | Some n => 1 <=? n
  end.

(** [ResizeEventCapacity(eventId, newMaxCapacity)]: [updateEvent] with a
    body that carries [maxCapacity] alone. *)
Definition resize_body (n : Z) : UpdateEventRequest :=
  mkUpdateEventRequest None None None None None (Some n).

(** ** Sample data *)

Definition alice : AuthUser := mkAuthUser 2 RoleUser.
Definition bob : AuthUser := mkAuthUser 3 RoleUser.
Definition root : AuthUser := mkAuthUser 7 RoleAdmin.

(** An event as [createEvent] stores it: every spot available. *)
Definition fresh_event (date cap creator : Z) : Event :=
  mkEvent "Meetup" None date None None cap cap creator.

Definition world_of (d : DB) : World := mkWorld d ∅ [] [] [].

Definition db1 : DB := mkDB {[ 1 := fresh_event 1000 2 7 ]} ∅ 1.

(** ** The answers by name *)

Module Fails.
Definition Unauthenticated := json_error 401 "Authentication required".
Definition EventNotFound := json_error 404 "Event not found".
Definition EventInPast := json_error 400 "Cannot reserve spots for past events".
Definition SelfReservationForbidden :=
  json_error 400 "You cannot reserve a spot for your own event".
Definition AlreadyReserved :=
  json_error 409 "You already have a reservation for this event".
Definition NoCapacity := json_error 400 "No available spots for this event".
Definition ReservationNotFound := json_error 404 "Reservation not found".
Definition Forbidden := json_error 403 "You can only cancel your own reservations".
Definition AlreadyCanceled := json_error 400 "Reservation is already canceled".
Definition CapacityBelowReservedFloor := below_floor.
End Fails.

(** An answer is a success when its status is 200 or 201. *)
Definition succeeded (res : Response) : bool :=
  (res_status res =? 200) || (res_status res =? 201).

(** ** The ledger: counting and the invariants *)

(** [HasActiveReservation(eventId, userId)] *)
Definition HasActiveReservation (d : DB) (eid uid : Z) : Prop :=
  ∃ k r, reservations d !! k = Some r ∧
         eventId r = eid ∧ userId r = uid ∧ status r = CONFIRMED.

Definition confirmed_at (eid : Z) (r : Reservation) : bool :=
  (eventId r =? eid) && bool_decide (status r = CONFIRMED).

(** The number of [CONFIRMED] reservations of an event. *)
Definition count_confirmed (eid : Z) (rs : gmap Z Reservation) : nat :=
  size (matching (confirmed_at eid) rs).

(** What a row, if any, adds to the number of rows matching [P]. *)
Definition hit (P : Reservation → bool) (o : option Reservation) : nat :=
  match o with
  | Some r => if P r then 1 else 0
  | None => 0
  end.

(** Keys handed out by the sequence lie below its next value. *)
Definition seq_fresh (d : DB) : Prop :=
  ∀ k, is_Some (reservations d !! k) → k < reservations_seq d.

(** The unique index [unique_active_reservation_per_user_per_event]. *)
Definition one_active_per_pair (d : DB) : Prop :=
  ∀ k1 k2 r1 r2,
    reservations d !! k1 = Some r1 → reservations d !! k2 = Some r2 →
    status r1 = CONFIRMED → status r2 = CONFIRMED →
    eventId r1 = eventId r2 → userId r1 = userId r2 → k1 = k2.

Definition ledger_exact (d : DB) : Prop :=
  ∀ id e, events d !! id = Some e →
    0 ≤ availableSpots e ∧
    availableSpots e = maxCapacity e - Z.of_nat (count_confirmed id (reservations d)).

Definition consistent (d : DB) : Prop :=
  seq_fresh d ∧ one_active_per_pair d ∧ ledger_exact d.

(** A database right after its events were created: no reservation yet and
    every event with all of its (at least one) spots available. *)
Definition initial (d : DB) : Prop :=
  reservations d = ∅ ∧
  ∀ id e, events d !! id = Some e →
    availableSpots e = maxCapacity e ∧ 1 ≤ maxCapacity e.

(** ** Sequences of operations *)

Inductive Op :=
| CreateReservation (now : Z) (req_user : option AuthUser) (eid : Z)
| CancelReservation (req_user : option AuthUser) (rid : Z)
| ResizeEventCapacity (req_user : option AuthUser) (id : Z) (body : UpdateEventRequest).

Definition handle (op : Op) (w : World) : Response * World :=
  match op with
  | CreateReservation now req_user eid => createReservation now req_user eid w
  | CancelReservation req_user rid => cancelReservation req_user rid w
  | ResizeEventCapacity req_user id body => updateEvent req_user id body w
  end.

(** One request after the other: the answers, and the world at the end. *)
Fixpoint handle_all (ops : list Op) (w : World) : list Response * World :=
  match ops with
  | [] => ([], w)
  | op :: ops' =>
    let '(res, w1) := handle op w in
    let '(rs, w2) := handle_all ops' w1 in
    (res :: rs, w2)
  end.

Inductive reachable : World → Prop :=
| reach_initial w : initial (database w) → reachable w
| reach_handle op w : reachable w → reachable (handle op w).2.

(** ** Requests in flight *)

(** The handlers are [async]: between two [await]s another request may
    run.  A request in flight is modelled in two steps, cut at its first
    query: first it reads the row it is about ([Event.findByPk] in
    [createReservation], [Reservation.findByPk] in [cancelReservation]) and
    keeps the instance; later it runs to its answer with that instance,
    its remaining statements seeing the database as committed by then
    (the transactions are opened without [isolationLevel], the reads
    without [lock]). *)
Inductive Request :=
| CreateReq (now : Z) (user : AuthUser) (eid : Z)
| CancelReq (user : AuthUser) (rid : Z).

Inductive Thread :=
| Started (r : Request)
| HasEvent (now : Z) (user : AuthUser) (eid : Z) (event : option Event)
| HasReservation (user : AuthUser) (rid : Z) (reservation : option Reservation)
| Answered (res : Response).

Definition thread_step (t : Thread) (w : World) : Thread * World :=
  match t with
  | Started (CreateReq now user eid) =>
    (HasEvent now user eid (events (database w) !! eid), w)
  | Started (CancelReq user rid) =>
    (HasReservation user rid (reservations (database w) !! rid), w)
  | HasEvent now user eid event =>
    let '(res, w') :=
      in_transaction (createReservation_checks now user eid event)
                     (createReservation_done eid) w in
    (Answered res, w')
  | HasReservation user rid reservation =>
    let '(res, w') :=
      in_transaction (cancelReservation_checks user rid reservation)
                     cancelReservation_done w in
    (Answered res, w')
  | Answered res => (Answered res, w)
  end.

(** A schedule names, step by step, the thread that moves. *)
Fixpoint run_schedule (sched : list nat) (ts : list Thread) (w : World)
  : list Thread * World :=
  match sched with
  | [] => (ts, w)
  | i :: sched' =>
    match ts !! i with
    | Some t =>
      let '(t', w') := thread_step t w in
      run_schedule sched' (<[i := t']> ts) w'
    | None => run_schedule sched' ts w
    end
  end.

Definition spots (id : Z) (w : World) : option Z :=
  availableSpots <$> events (database w) !! id.

Definition capacity (id : Z) (w : World) : option Z :=
  maxCapacity <$> events (database w) !! id.

Definition status_of (rid : Z) (w : World) : option ReservationStatus :=
  status <$> reservations (database w) !! rid.

(** ** Redis commands and console lines between two worlds *)

Definition is_error (l : LogLine) : bool :=
  match l with ConsoleError _ => true | ConsoleLog _ => false end.

Definition errors_logged (w w' : World) : nat :=
  length (filter (λ l, is_error l = true) (drop (length (console w)) (console w'))).

Definition sent_between (w w' : World) : list RedisCmd :=
  drop (length (redis_sent w)) (redis_sent w').

(** How many of the commands sent between [w] and [w'] Redis rejected. *)
Definition rejected_between (w w' : World) : nat :=
  length (filter (λ b, b = true)
                 (take (length (sent_between w w')) (redis_faults w))).

(** The event an operation is about. *)
Definition event_of (op : Op) (d : DB) : option Z :=
  match op with
  | CreateReservation _ _ eid => Some eid
  | CancelReservation _ rid => eventId <$> reservations d !! rid
  | ResizeEventCapacity _ id _ => Some id
  end.

(** The three invalidations of [clearEventCaches], as sent to Redis. *)
Definition signals (eid : Z) : list RedisCmd :=
  [DEL [CACHE_KEYS.POPULAR_EVENTS]; DEL [CACHE_KEYS.EVENT_DETAILS eid];
   KEYS "events:page:*"].

(** From [w] to [w'] only the cache side moved: commands were sent, each
    used up one fate, and the console got exactly one error line per
    rejected command (and no other error line). *)
Definition accounted (w w' : World) : Prop :=
  ∃ cmds lines,
    redis_sent w' = redis_sent w ++ cmds ∧
    console w' = console w ++ lines ∧
    redis_faults w' = drop (length cmds) (redis_faults w) ∧
    length (filter (λ l, is_error l = true) lines) =
    length (filter (λ b, b = true) (take (length cmds) (redis_faults w))).

(** Redis accepts every command. *)
Definition redis_up (w : World) : Prop :=
  Forall (λ b, b = false) (redis_faults w).

(** More sample data. *)

(** A filled cache, and a Redis that rejects the first command it gets. *)
Definition flaky : World :=
  mkWorld db1
          {[ "popular_events"; "event:1"; "event:2";
             "events:page:1:limit:10:date:all:name:all:location:all" ]}
          [] [] [true].

(** Two users book a spot at event 1 of [db1]. *)
Definition two_bookings : World :=
  (handle (CreateReservation 10 (Some bob) 1)
     (handle (CreateReservation 10 (Some alice) 1) (world_of db1)).2).2.

(** A booking, its cancel, and a resize to five spots. *)
Definition resized : World :=
  (handle (ResizeEventCapacity (Some root) 1 (resize_body 5))
     (handle (CancelReservation (Some alice) 1)
        (handle (CreateReservation 10 (Some alice) 1) (world_of db1)).2).2).2.

Definition last_spot : DB := mkDB {[ 1 := fresh_event 1000 1 7 ]} ∅ 1.

(** Event 1 with two spots, one of them taken by the first user. *)
Definition booked : DB :=
  mkDB {[ 1 := set_availableSpots 1 (fresh_event 1000 2 7) ]}
       {[ 1 := mkReservation 1 2 CONFIRMED ]} 2.

(** A confirmed reservation for an event whose spots are all available. *)
Definition unpaired : DB :=
  mkDB {[ 1 := fresh_event 1000 1 7 ]} {[ 1 := mkReservation 1 2 CONFIRMED ]} 2.

(** The last spot of event 1 sold to two users whose requests overlapped. *)
Definition oversold : World :=
  (run_schedule [0; 1; 0; 1]%nat
     [Started (CreateReq 10 alice 1); Started (CreateReq 10 bob 1)]
     (world_of last_spot)).2.

(** ** The read side and the rest of the controllers *)

(** [calculateSpotStatus] of [eventController.ts], with the clock read
    passed in. *)
Definition calculateSpotStatus (now : Z) (event : Event) : string :=
  if eventDate event <? now then "past-event"
  else if availableSpots event =? 0 then "fully-booked"
  else if availableSpots event <=? 5 then "limited"
  else "available".



(** [CreateEventRequest], with [eventDate] already turned into a date. *)
Record CreateEventRequest := mkCreateEventRequest {
  new_name : string;
  new_description : option string;
  new_eventDate : Z;
  new_location : option string;
  new_onlineLink : option string;
  new_maxCapacity : Z
}.

(** The validators of [Event.init] that [Event.create] runs: the rule
    [maxCapacity: { min: 1 }], and the rules on [name], [eventDate] and
    [onlineLink] (library validators), which are taken as [others]. *)
Definition Event_validate (others : Event → bool) (e : Event) : bool :=
  (1 <=? maxCapacity e) && others e.

(** The hook [beforeCreate] of [Event.init]. *)
Definition beforeCreate (e : Event) : Event :=
  if availableSpots e =? 0 then set_availableSpots (maxCapacity e) e else e.

Definition event_created (id : Z) (d : DB) : Response :=
  mkResponse 201 (MessageBody "Event created successfully"
                              (EventPayload id (events d !! id))).

(** [createEvent].  [id] is the key the sequence of table [events] hands
    out for the new row; a validator that fails or a key that is taken makes
    [Event.create] throw, which the handler logs and answers with 500. *)
Definition createEvent (others : Event → bool) (req_user : option AuthUser)
    (id : Z) (body : CreateEventRequest) (w : World) : Response * World :=
  match req_user with
  | None => (json_error 401 "Authentication required", w)
  | Some user =>
    let row := mkEvent (new_name body) (new_description body) (new_eventDate body)
                       (new_location body) (new_onlineLink body)
                       (new_maxCapacity body) (new_maxCapacity body) (user_id user) in
    if Event_validate others row && bool_decide (events (database w) !! id = None) then
      let d := mkDB (<[id := beforeCreate row]> (events (database w)))
                    (reservations (database w)) (reservations_seq (database w)) in
      (event_created id d, clearEventCaches id (set_database d w))
    else (internal_error, console_add (ConsoleError "Create event error:") w)
  end.

(** The [ON DELETE] action of the foreign key [reservations.eventId].  It
    belongs to the schema in the database, not to the handlers:
    [sequelize.sync] creates it from the associations of [models/index.ts]
    ([CASCADE] for [Event.hasMany(Reservation, ..)] on a key that is not
    null); with [NO_ACTION] the database refuses to delete an event that
    reservations refer to. *)
Inductive OnDelete := CASCADE | NO_ACTION.

Definition refers_to (id : Z) (r : Reservation) : bool := eventId r =? id.

(** [event.destroy()]: the database without the event (and, on cascade,
    without its reservations), or nothing when the foreign key refuses. *)
Definition Event_destroy (fk : OnDelete) (id : Z) (d : DB) : option DB :=
  match fk with
  | CASCADE =>
    Some (mkDB (delete id (events d))
               (matching (λ r, negb (refers_to id r)) (reservations d))
               (reservations_seq d))
  | NO_ACTION =>
    if bool_decide (size (matching (refers_to id) (reservations d)) = 0%nat)
    then Some (mkDB (delete id (events d)) (reservations d) (reservations_seq d))
    else None
  end.

Definition event_deleted : Response :=
  mkResponse 200 (MessageBody "Event deleted successfully" NoPayload).

(** [deleteEvent] of [eventController.ts]. *)
Definition deleteEvent (fk : OnDelete) (req_user : option AuthUser) (id : Z)
    (w : World) : Response * World :=
  match events (database w) !! id with
  | None => (json_error 404 "Event not found", w)
  | Some event =>
    if not_owner_nor_admin req_user event then
      (json_error 403 "You can only delete your own events", w)
    else
      match Event_destroy fk id (database w) with
      | Some d => (event_deleted, clearEventCaches id (set_database d w))
      | None => (internal_error, console_add (ConsoleError "Delete event error:") w)
      end
  end.

(** Every reservation refers to an event that is stored. *)
Definition no_orphan (d : DB) : Prop :=
  ∀ k r, reservations d !! k = Some r → is_Some (events d !! eventId r).

(** Event 1 of [booked] deleted by an admin: the reservation goes with it. *)
Definition event_gone : World :=
  (deleteEvent CASCADE (Some root) 1 (world_of booked)).2.

(** What [checkUserReservation] sends: an error answer, or
    [{ hasReservation, reservation }]. *)
Inductive CheckAnswer :=
| CheckFailed (res : Response)
| Checked (hasReservation : bool) (reservation : option (Z * Reservation)).

(** [checkUserReservation] of [reservationController.ts]. *)
Definition checkUserReservation (req_user : option AuthUser) (eid : Z)
    (w : World) : CheckAnswer :=
  match req_user with
  | None => CheckFailed (json_error 401 "Authentication required")
  | Some user =>
    match events (database w) !! eid with
    | None => CheckFailed (json_error 404 "Event not found")
    | Some _ =>
      let reservation :=
        head (map_to_list (matching (confirmed_for eid (user_id user))
                                    (reservations (database w)))) in
      Checked (match reservation with Some _ => true | None => false end) reservation
    end
  end.

(** *** Paginated lists of reservations *)

(** [Math.ceil(count / limit)] on a count and a positive limit. *)
Definition Math_ceil_div (count lim : Z) : Z := - ((- count) / lim).

Record Pagination := mkPagination {
  pg_total : Z;
  pg_page : Z;
  pg_limit : Z;
  pg_totalPages : Z
}.

(** The query string: [page] and [limit] (defaults 1 and 10) and the
    optional filters. *)
Record ListQuery := mkListQuery {
  q_page : option Z;
  q_limit : option Z;
  q_status : option string;
  q_eventId : option Z;
  q_userId : option Z
}.

(** [if (status && (status === "confirmed" || status === "canceled"))
    whereConditions.status = status]. *)
Definition status_condition (st : option string) : Reservation → bool :=
  match st with
  | Some s =>
    if String.eqb s "confirmed" then λ r, bool_decide (status r = CONFIRMED)
    else if String.eqb s "canceled" then λ r, bool_decide (status r = CANCELED)
    else λ _, true
  | None => λ _, true
  end.

(** [if (eventId) whereConditions.eventId = Number(eventId)], and the same
    for [userId]: a number that is given restricts the rows (the ids are
    validated as integers from 1 on, so none is falsy). *)
Definition id_condition (proj : Reservation → Z) (given : option Z) : Reservation → bool :=
  match given with
  | Some v => λ r, proj r =? v
  | None => λ _, true
  end.

(** [Reservation.findAndCountAll({ where, limit, offset, order })] and the
    [pagination] object of the answer.  [newest_first] is the order
    [createdAt DESC] among the rows that match. *)
Definition reservation_page
    (newest_first : list (Z * Reservation) → list (Z * Reservation))
    (wher : Reservation → bool) (q : ListQuery) (d : DB)
  : list (Z * Reservation) * Pagination :=
  let page := default 1 (q_page q) in
  let lim := default 10 (q_limit q) in
  let offset := (page - 1) * lim in
  let found := newest_first (map_to_list (matching wher (reservations d))) in
  (take (Z.to_nat lim) (drop (Z.to_nat offset) found),
   mkPagination (Z.of_nat (length found)) page lim
                (Math_ceil_div (Z.of_nat (length found)) lim)).

(** [getMyReservations]: the rows of the requester. *)
Definition getMyReservations newest_first (req_user : option AuthUser)
    (q : ListQuery) (w : World)
  : Response + list (Z * Reservation) * Pagination :=
  match req_user with
  | None => inl (json_error 401 "Authentication required")
  | Some user =>
    inr (reservation_page newest_first
           (λ r, (userId r =? user_id user) && status_condition (q_status q) r)
           q (database w))
  end.

(** [getEventReservations]: the rows of one event. *)
Definition getEventReservations newest_first (eid : Z) (q : ListQuery) (w : World)
  : Response + list (Z * Reservation) * Pagination :=
  match events (database w) !! eid with
  | None => inl (json_error 404 "Event not found")
  | Some _ =>
    inr (reservation_page newest_first
           (λ r, (eventId r =? eid) && status_condition (q_status q) r)
           q (database w))
  end.

(** [getAllReservations] *)
Definition getAllReservations newest_first (q : ListQuery) (w : World)
  : list (Z * Reservation) * Pagination :=
  reservation_page newest_first
    (λ r, status_condition (q_status q) r &&
          id_condition eventId (q_eventId q) r &&
          id_condition userId (q_userId q) r)
    q (database w).

(** The pages 1, 2, .., [n] of one query, one after the other. *)
Definition first_pages (fetch : ListQuery → list (Z * Reservation) * Pagination)
    (q : ListQuery) (n : nat) : list (Z * Reservation) :=
  concat (map (λ p : nat,
                 (fetch (mkListQuery (Some (Z.of_nat (S p))) (q_limit q) (q_status q)
                                     (q_eventId q) (q_userId q))).1)
              (seq 0 n)).

(** *** [middleware/auth.ts] *)

(** A middleware answers, or calls [next()] ([None]). *)
Definition requireRole (r : Role) (req_user : option AuthUser) : option Response :=
  match req_user with
  | None => Some (json_error 401 "Authentication required")
  | Some u =>
    if negb (bool_decide (role u = r)) && negb (bool_decide (role u = RoleAdmin))
    then Some (json_error 403 "Insufficient permissions")
    else None
  end.

Definition requireAdmin : option AuthUser → option Response := requireRole RoleAdmin.

Definition requireUser (req_user : option AuthUser) : option Response :=
  match req_user with
  | None => Some (json_error 401 "Authentication required")
  | Some _ => None
  end.

(** [invalidateCache(keys)]: one [cacheUtils.del] and one console line per
    key, then [next()]. *)
Definition invalidateCache (keys : list string) (w : World) : World :=
  foldl (λ w0 key, console_add (ConsoleLog ("Invalidated cache key: " +:+ key))
                               (cacheUtils.del key w0))
        w keys.

Module CACHE_KEYS_USER.
Definition USER_SESSION (userId : Z) : string := "session:" +:+ pretty userId.
Definition USER_PROFILE (userId : Z) : string := "user:" +:+ pretty userId.
End CACHE_KEYS_USER.

(** The cache key of [getAllEvents]. *)
Definition getAllEvents_cacheKey (page lim : Z) (date name_ location_ : option string)
  : string :=
  CACHE_KEYS.EVENT_LIST page lim +:+
  (":date:" +:+ default "all" (truthy_string date) +:+
   ":name:" +:+ default "all" (truthy_string name_) +:+
   ":location:" +:+ default "all" (truthy_string location_)).

(** * Proofs *)

(** ** Finite-map facts behind the queries *)

Section Matching.
Context (P : Reservation → bool).
Implicit Types rs : gmap Z Reservation.

Lemma matching_lookup rs k r :
  matching P rs !! k = Some r ↔ rs !! k = Some r ∧ P r = true.
Proof. unfold matching. by rewrite map_lookup_filter_Some. Qed.

Lemma findOne_None rs :
  head (map_to_list (matching P rs)) = None ↔
  ∀ k r, rs !! k = Some r → P r = false.
Proof.
  split.
  - intros Hhd k r Hk. destruct (P r) eqn:HP; [|done].
    assert (Hin : (k, r) ∈ map_to_list (matching P rs))
      by (apply elem_of_map_to_list, matching_lookup; done).
    destruct (map_to_list (matching P rs)); [by apply elem_of_nil in Hin|done].
  - intros Hall. destruct (map_to_list (matching P rs)) as [|[k r] l] eqn:Hl; [done|].
    assert (Hin : (k, r) ∈ map_to_list (matching P rs)) by (rewrite Hl; left).
    apply elem_of_map_to_list, matching_lookup in Hin as [Hk HP].
    rewrite (Hall _ _ Hk) in HP. done.
Qed.

Lemma findOne_Some rs k r :
  head (map_to_list (matching P rs)) = Some (k, r) →
  rs !! k = Some r ∧ P r = true.
Proof.
  intros Hhd. apply matching_lookup, elem_of_map_to_list.
  destruct (map_to_list (matching P rs)) as [|x l]; [done|].
  simpl in Hhd. injection Hhd as ->. left.
Qed.

(** Writing one row moves the number of matching rows by what the old
    and the new row contribute. *)
Lemma size_matching_insert rs k r :
  (size (matching P (<[k := r]> rs)) + hit P (rs !! k) =
   size (matching P rs) + hit P (Some r))%nat.
Proof.
  unfold matching. rewrite map_filter_insert. simpl.
  assert (Hold : filter (λ kr, P kr.2 = true) rs !! k =
                 match rs !! k with
                 | Some r0 => if P r0 then Some r0 else None
                 | None => None
                 end).
  { destruct (rs !! k) as [r0|] eqn:Hk.
    - destruct (P r0) eqn:HP.
      + apply map_lookup_filter_Some; done.
      + apply map_lookup_filter_None. right. intros x Hx. simpl.
        rewrite Hk in Hx. injection Hx as <-. congruence.
    - apply map_lookup_filter_None. left. done. }
  case_decide as HPr; simpl in HPr.
  - rewrite HPr, map_size_insert, Hold.
    destruct (rs !! k) as [r0|]; simpl; [destruct (P r0)|]; simpl; lia.
  - rewrite map_filter_delete, map_size_delete, Hold.
    destruct (P r); [done|].
    destruct (rs !! k) as [r0|]; simpl; [destruct (P r0) eqn:HP0|]; simpl; try lia.
    assert (size (filter (λ kr, P kr.2 = true) rs) ≠ 0%nat); [|lia].
    apply map_size_non_empty_iff. intros Hempty.
    rewrite Hempty, lookup_empty in Hold. done.
Qed.

Lemma alter_as_insert (f : Reservation → Reservation) rs k r :
  rs !! k = Some r → alter f k rs = <[k := f r]> rs.
Proof.
  intros Hk. apply map_eq. intros j. destruct (decide (k = j)) as [->|Hne].
  - by rewrite lookup_alter_eq, lookup_insert_eq, Hk.
  - by rewrite lookup_alter_ne, lookup_insert_ne.
Qed.

End Matching.

Lemma confirmed_for_true eid uid r :
  confirmed_for eid uid r = true ↔
  eventId r = eid ∧ userId r = uid ∧ status r = CONFIRMED.
Proof.
  unfold confirmed_for. rewrite !andb_true_iff, !Z.eqb_eq, bool_decide_eq_true.
  tauto.
Qed.

Lemma confirmed_at_true eid r :
  confirmed_at eid r = true ↔ eventId r = eid ∧ status r = CONFIRMED.
Proof.
  unfold confirmed_at. rewrite andb_true_iff, Z.eqb_eq, bool_decide_eq_true. tauto.
Qed.

Lemma no_confirmed_for d eid uid :
  (∀ k r, reservations d !! k = Some r → confirmed_for eid uid r = false) ↔
  ¬ HasActiveReservation d eid uid.
Proof.
  split.
  - intros Hall (k & r & Hk & H1 & H2 & H3).
    assert (confirmed_for eid uid r = true) by (apply confirmed_for_true; done).
    rewrite (Hall _ _ Hk) in *. done.
  - intros Hno k r Hk. destruct (confirmed_for eid uid r) eqn:Hc; [|done].
    apply confirmed_for_true in Hc. destruct Hno. exists k, r. tauto.
Qed.

(** ** The transactions, statement by statement *)

Lemma createReservation_tx_unfold now user eid d :
  createReservation_tx now user eid d =
  match events d !! eid with
  | None => Rollback Fails.EventNotFound
  | Some e =>
    if eventDate e <=? now then Rollback Fails.EventInPast
    else if is_admin user && (creatorId e =? user_id user)
    then Rollback Fails.SelfReservationForbidden
    else
      match head (map_to_list (matching (confirmed_for eid (user_id user))
                                        (reservations d))) with
      | Some _ => Rollback Fails.AlreadyReserved
      | None =>
        if availableSpots e <=? 0 then Rollback Fails.NoCapacity
        else
          Next (reservations_seq d)
               (mkDB (alter (λ e, set_availableSpots (availableSpots e - 1) e)
                            eid (events d))
                     (<[reservations_seq d := mkReservation eid (user_id user) CONFIRMED]>
                        (reservations d))
                     (reservations_seq d + 1))
      end
  end.
Proof.
  unfold createReservation_tx, createReservation_checks, tx_bind, Event_findByPk.
  destruct (events d !! eid) as [e|]; [|done].
  destruct (eventDate e <=? now); [done|].
  destruct (is_admin user && (creatorId e =? user_id user)); [done|].
  unfold Reservation_findOne.
  destruct (head _); [done|].
  destruct (availableSpots e <=? 0); done.
Qed.

Lemma cancelReservation_tx_unfold user rid d :
  cancelReservation_tx user rid d =
  match reservations d !! rid with
  | None => Rollback Fails.ReservationNotFound
  | Some r =>
    if negb (is_admin user) && negb (user_id user =? userId r)
    then Rollback Fails.Forbidden
    else if bool_decide (status r = CANCELED) then Rollback Fails.AlreadyCanceled
    else
      Next (eventId r)
           (mkDB (alter (λ e, set_availableSpots (availableSpots e + 1) e)
                        (eventId r) (events d))
                 (alter (set_status CANCELED) rid (reservations d))
                 (reservations_seq d))
  end.
Proof.
  unfold cancelReservation_tx, cancelReservation_checks, tx_bind, Reservation_findByPk.
  destruct (reservations d !! rid) as [r|]; [|done].
  destruct (negb (is_admin user) && negb (user_id user =? userId r)); [done|].
  destruct (bool_decide (status r = CANCELED)); [done|].
  unfold Reservation_update_status, Event_findByPk, Event_increment, tx_ret. simpl.
  destruct (events d !! eventId r) as [e|] eqn:He; [done|].
  f_equal. f_equal. apply map_eq. intros j.
  destruct (decide (eventId r = j)) as [<-|Hne].
  - by rewrite lookup_alter_eq, He.
  - by rewrite lookup_alter_ne.
Qed.

(** ** The cache never touches the database *)

Lemma database_del key w : database (cacheUtils.del key w) = database w.
Proof. unfold cacheUtils.del. simpl. by destruct (default false _). Qed.

Lemma database_delPattern p w : database (cacheUtils.delPattern p w) = database w.
Proof.
  unfold cacheUtils.delPattern. simpl.
  destruct (default false (head (redis_faults w))); [done|]. simpl.
  case_bool_decide; [|done]. simpl.
  by destruct (default false _).
Qed.

Lemma database_clearEventCaches eid w :
  database (clearEventCaches eid w) = database w.
Proof.
  unfold clearEventCaches. simpl.
  by rewrite database_delPattern, !database_del.
Qed.

(** What a handler run inside a transaction leaves in the database. *)
Lemma in_transaction_database {A} (t : Tx A) done w :
  (∀ a w0, database (done a w0).2 = database w0) →
  database (in_transaction t done w).2 =
  match t (database w) with
  | Next _ d => d
  | Rollback _ => database w
  end.
Proof.
  intros Hdone. unfold in_transaction, run_tx.
  destruct (t (database w)); [|done]. by rewrite Hdone.
Qed.

Lemma in_transaction_rollback {A} (t : Tx A) done w res :
  t (database w) = Rollback res → in_transaction t done w = (res, w).
Proof. intros Ht. unfold in_transaction, run_tx. by rewrite Ht. Qed.

Lemma in_transaction_commit {A} (t : Tx A) done w a d :
  t (database w) = Next a d →
  in_transaction t done w = done a (set_database d w).
Proof. intros Ht. unfold in_transaction, run_tx. by rewrite Ht. Qed.

(** ** The three operations keep the ledger consistent *)

Lemma count_confirmed_insert eid rs k r :
  (count_confirmed eid (<[k := r]> rs) + hit (confirmed_at eid) (rs !! k) =
   count_confirmed eid rs + hit (confirmed_at eid) (Some r))%nat.
Proof. apply size_matching_insert. Qed.

Lemma initial_consistent d : initial d → consistent d.
Proof.
  intros [Hrs Hev]. repeat split.
  - intros k [r Hk]. rewrite Hrs, lookup_empty in Hk. done.
  - intros k1 k2 r1 r2 Hk1. rewrite Hrs, lookup_empty in Hk1. done.
  - destruct (Hev _ _ H). lia.
  - destruct (Hev _ _ H) as [-> _]. unfold count_confirmed, matching.
    rewrite Hrs, map_filter_empty, map_size_empty. lia.
Qed.

Lemma create_consistent now user eid d rid d' :
  consistent d →
  createReservation_tx now user eid d = Next rid d' →
  consistent d'.
Proof.
  intros (Hseq & Huniq & Hled) Htx. rewrite createReservation_tx_unfold in Htx.
  destruct (events d !! eid) as [e|] eqn:He; [|done].
  destruct (eventDate e <=? now); [done|].
  destruct (is_admin user && _); [done|].
  destruct (head _) eqn:Hfind; [done|].
  destruct (availableSpots e <=? 0) eqn:Hcap; [done|].
  apply Z.leb_gt in Hcap. injection Htx as <- <-.
  rewrite findOne_None in Hfind.
  assert (Hfresh : reservations d !! reservations_seq d = None).
  { destruct (reservations d !! reservations_seq d) eqn:Hk; [|done].
    specialize (Hseq (reservations_seq d)). rewrite Hk in Hseq.
    specialize (Hseq (mk_is_Some _ _ eq_refl)). lia. }
  split; [|split]; [| |intros id e' H; split].
  - intros k [r Hk]. simpl in *. apply lookup_insert_Some in Hk as [[<- _]|[_ Hk]].
    + lia.
    + specialize (Hseq k (mk_is_Some _ _ Hk)). lia.
  - intros k1 k2 r1 r2 Hk1 Hk2 Hs1 Hs2 Hev Hus. simpl in Hk1, Hk2.
    apply lookup_insert_Some in Hk1 as [[<- <-]|[Hne1 Hk1]];
      apply lookup_insert_Some in Hk2 as [[<- <-]|[Hne2 Hk2]]; simpl in *.
    + done.
    + assert (confirmed_for eid (user_id user) r2 = true)
        by (apply confirmed_for_true; done).
      rewrite (Hfind _ _ Hk2) in *. done.
    + assert (confirmed_for eid (user_id user) r1 = true)
        by (apply confirmed_for_true; done).
      rewrite (Hfind _ _ Hk1) in *. done.
    + eapply Huniq; eauto.
  - simpl in H. apply lookup_alter_Some in H as [(-> & e0 & He0 & ->)|[Hne H]].
    + rewrite He in He0. injection He0 as <-. simpl. lia.
    + by destruct (Hled _ _ H).
  - simpl in H.
    pose proof (count_confirmed_insert id (reservations d) (reservations_seq d)
                  (mkReservation eid (user_id user) CONFIRMED)) as Hcnt.
    rewrite Hfresh in Hcnt. simpl in Hcnt. unfold confirmed_at in Hcnt. simpl in Hcnt.
    apply lookup_alter_Some in H as [(-> & e0 & He0 & ->)|[Hne H]].
    + rewrite He in He0. injection He0 as <-. simpl.
      rewrite Z.eqb_refl in Hcnt. simpl in Hcnt.
      destruct (Hled _ _ He) as [_ ->]. lia.
    + destruct (Hled _ _ H) as [_ ->].
      destruct (eid =? id) eqn:Heq; [apply Z.eqb_eq in Heq; done|].
      simpl in Hcnt |- *. lia.
Qed.

Lemma cancel_consistent user rid d eid d' :
  consistent d →
  cancelReservation_tx user rid d = Next eid d' →
  consistent d'.
Proof.
  intros (Hseq & Huniq & Hled) Htx. rewrite cancelReservation_tx_unfold in Htx.
  destruct (reservations d !! rid) as [r|] eqn:Hr; [|done].
  destruct (negb (is_admin user) && _); [done|].
  case_bool_decide as Hst; [done|].
  assert (Hconf : status r = CONFIRMED) by (by destruct (status r)).
  injection Htx as Heid Hd'. subst eid d'.
  split; [|split]; [| |intros id e' H; split].
  - intros k Hk. simpl in *. apply Hseq. by apply lookup_alter_is_Some in Hk.
  - intros k1 k2 r1 r2 Hk1 Hk2 Hs1 Hs2 Hev Hus. simpl in Hk1, Hk2.
    apply lookup_alter_Some in Hk1 as [(-> & ? & _ & ->)|[Hne1 Hk1]]; [done|].
    apply lookup_alter_Some in Hk2 as [(-> & ? & _ & ->)|[Hne2 Hk2]]; [done|].
    eapply Huniq; eauto.
  - simpl in H. apply lookup_alter_Some in H as [(<- & e0 & He0 & ->)|[Hne H]].
    + simpl. destruct (Hled _ _ He0). lia.
    + by destruct (Hled _ _ H).
  - simpl in H. rewrite (alter_as_insert _ _ _ _ Hr).
    pose proof (count_confirmed_insert id (reservations d) rid
                  (set_status CANCELED r)) as Hcnt.
    rewrite Hr in Hcnt. simpl in Hcnt. unfold confirmed_at in Hcnt. simpl in Hcnt.
    rewrite Hconf in Hcnt. rewrite andb_false_r in Hcnt. simpl in Hcnt.
    apply lookup_alter_Some in H as [(<- & e0 & He0 & ->)|[Hne H]].
    + simpl. rewrite Z.eqb_refl in Hcnt. simpl in Hcnt.
      destruct (Hled _ _ He0) as [_ ->]. lia.
    + destruct (Hled _ _ H) as [_ ->].
      destruct (eventId r =? id) eqn:Heq; [apply Z.eqb_eq in Heq; done|].
      simpl in Hcnt |- *. lia.
Qed.

Lemma handle_maxCapacity_inr body e u0 u :
  handle_maxCapacity body e u0 = inr u →
  u = u0 ∨
  ∃ n, truthy_number (upd_maxCapacity body) = Some n ∧
       n ≠ maxCapacity e ∧
       maxCapacity e - availableSpots e ≤ n ∧
       u = with_capacity n (n - (maxCapacity e - availableSpots e)) u0.
Proof.
  unfold handle_maxCapacity.
  destruct (truthy_number (upd_maxCapacity body)) as [n|]; [|left; congruence].
  case_bool_decide as Hne; [|left; congruence].
  destruct (n <? maxCapacity e - availableSpots e) eqn:Hlt; [done|].
  apply Z.ltb_ge in Hlt. intros [= <-]. right. exists n. done.
Qed.

Lemma Event_update_consistent id e u0 u body d :
  events d !! id = Some e →
  ud_maxCapacity u0 = None → ud_availableSpots u0 = None →
  handle_maxCapacity body e u0 = inr u →
  consistent d → consistent (Event_update id u d).
Proof.
  intros He Hcap0 Hspots0 Hu (Hseq & Huniq & Hled).
  split; [done|split; [done|]].
  intros id' e' He'. simpl in He'.
  apply lookup_alter_Some in He' as [(<- & e0 & He0 & ->)|[Hne He']];
    [|by apply Hled].
  rewrite He in He0. injection He0 as <-.
  destruct (Hled _ _ He) as [Hnn Hex].
  apply handle_maxCapacity_inr in Hu as [->|(n & _ & _ & Hfloor & ->)]; simpl.
  - rewrite Hcap0, Hspots0. simpl. done.
  - lia.
Qed.

Lemma update_consistent req_user id body w :
  consistent (database w) →
  consistent (database (updateEvent req_user id body w).2).
Proof.
  intros Hc. unfold updateEvent.
  destruct (events (database w) !! id) as [e|] eqn:He; [|done].
  destruct (not_owner_nor_admin req_user e); [done|].
  destruct (handle_maxCapacity body e (plain_updateData body)) as [res|u] eqn:Hu;
    [done|].
  destruct (update_accepted u); [|done].
  cbn [snd]. rewrite database_clearEventCaches. cbn [set_database database].
  by apply (Event_update_consistent id e (plain_updateData body) u body).
Qed.

Lemma createReservation_consistent now req_user eid w :
  consistent (database w) →
  consistent (database (createReservation now req_user eid w).2).
Proof.
  intros Hc. unfold createReservation. destruct req_user as [user|]; [|done].
  rewrite in_transaction_database
    by (intros; apply database_clearEventCaches).
  destruct (createReservation_tx now user eid (database w)) eqn:Htx; [|done].
  by eapply create_consistent.
Qed.

Lemma cancelReservation_consistent req_user rid w :
  consistent (database w) →
  consistent (database (cancelReservation req_user rid w).2).
Proof.
  intros Hc. unfold cancelReservation. destruct req_user as [user|]; [|done].
  rewrite in_transaction_database
    by (intros; apply database_clearEventCaches).
  destruct (cancelReservation_tx user rid (database w)) eqn:Htx; [|done].
  by eapply cancel_consistent.
Qed.

Lemma handle_consistent op w :
  consistent (database w) → consistent (database (handle op w).2).
Proof.
  destruct op; simpl.
  - apply createReservation_consistent.
  - apply cancelReservation_consistent.
  - apply update_consistent.
Qed.

Lemma reachable_consistent w : reachable w → consistent (database w).
Proof.
  induction 1 as [w Hinit|op w _ IH].
  - by apply initial_consistent.
  - by apply handle_consistent.
Qed.

Lemma world_of_initial_db1 : initial (database (world_of db1)).
Proof.
  split; [done|]. intros id e He. simpl in He.
  apply lookup_singleton_Some in He as [_ <-]. simpl. lia.
Qed.

(** ** The capacity invariants *)

(** Requests handled one after the other keep the spots within bounds: in
    every world reached from freshly created events by whole
    [createReservation], [cancelReservation] and [updateEvent] requests,
    every event has [0 <= availableSpots <= maxCapacity]. *)
Lemma availableSpots_within_capacity w id e :
  reachable w →
  events (database w) !! id = Some e →
  0 ≤ availableSpots e ≤ maxCapacity e.
Proof.
  intros Hreach He.
  destruct (reachable_consistent _ Hreach) as (_ & _ & Hled).
  destruct (Hled _ _ He). lia.
Qed.

Lemma availableSpots_within_capacity_witness :
  0 ≤ availableSpots (fresh_event 1000 5 7) ≤ maxCapacity (fresh_event 1000 5 7).
Proof.
  apply (availableSpots_within_capacity resized 1).
  - unfold resized. do 3 apply reach_handle.
    apply reach_initial, world_of_initial_db1.
  - vm_compute. reflexivity.
Defined.

(** In every such world, [availableSpots] of every event equals its
    [maxCapacity] minus the number of its [CONFIRMED] reservations. *)
Lemma availableSpots_counts_confirmed w id e :
  reachable w →
  events (database w) !! id = Some e →
  availableSpots e =
  maxCapacity e - Z.of_nat (count_confirmed id (reservations (database w))).
Proof.
  intros Hreach He.
  destruct (reachable_consistent _ Hreach) as (_ & _ & Hled).
  by destruct (Hled _ _ He).
Qed.

Lemma availableSpots_counts_confirmed_witness :
  availableSpots (set_availableSpots 0 (fresh_event 1000 2 7)) =
  maxCapacity (set_availableSpots 0 (fresh_event 1000 2 7)) -
  Z.of_nat (count_confirmed 1 (reservations (database two_bookings))).
Proof.
  apply (availableSpots_counts_confirmed two_bookings 1).
  - unfold two_bookings. do 2 apply reach_handle.
    apply reach_initial, world_of_initial_db1.
  - vm_compute. reflexivity.
Defined.

(** ** [createReservation]: the order of the checks *)

Lemma findOne_confirmed_for d eid uid :
  head (map_to_list (matching (confirmed_for eid uid) (reservations d))) = None ↔
  ¬ HasActiveReservation d eid uid.
Proof. by rewrite findOne_None, no_confirmed_for. Qed.

Lemma is_admin_owner user e :
  is_admin user && (creatorId e =? user_id user) = true ↔
  role user = RoleAdmin ∧ creatorId e = user_id user.
Proof.
  unfold is_admin. by rewrite andb_true_iff, bool_decide_eq_true, Z.eqb_eq.
Qed.

(** C5.  [createReservation] checks, in this order and stopping at the
    first failure: the event exists (else "Event not found"), its date is
    strictly after the current time (else "past events"), the requester is
    not an admin reserving their own event (else "your own event"), the
    user has no confirmed reservation for the event (else "already have a
    reservation"), a spot is available (else "No available spots").  Every
    failure leaves the world as it was.  An admin who created the event is
    refused at the third check whatever the capacity and the reservations.
    When all five checks pass, the reservation is stored as confirmed and
    one spot is taken. *)
Theorem createReservation_checks_in_order now user eid w :
  let d := database w in
  let run := createReservation now (Some user) eid w in
  (events d !! eid = None → run = (Fails.EventNotFound, w)) ∧
  (∀ e, events d !! eid = Some e →
     (eventDate e ≤ now → run = (Fails.EventInPast, w)) ∧
     (now < eventDate e →
        (role user = RoleAdmin ∧ creatorId e = user_id user →
           run = (Fails.SelfReservationForbidden, w)) ∧
        (¬ (role user = RoleAdmin ∧ creatorId e = user_id user) →
           (HasActiveReservation d eid (user_id user) →
              run = (Fails.AlreadyReserved, w)) ∧
           (¬ HasActiveReservation d eid (user_id user) →
              (availableSpots e ≤ 0 → run = (Fails.NoCapacity, w)) ∧
              (0 < availableSpots e →
                 res_status run.1 = 201 ∧
                 spots eid run.2 = Some (availableSpots e - 1) ∧
                 reservations (database run.2) !! reservations_seq d =
                   Some (mkReservation eid (user_id user) CONFIRMED)))))).
Proof.
  intros d run. subst d run. unfold createReservation.
  pose proof (createReservation_tx_unfold now user eid (database w)) as Htx.
  split.
  { intros He. apply in_transaction_rollback. by rewrite Htx, He. }
  intros e He. rewrite He in Htx. split.
  { intros Hpast. apply in_transaction_rollback.
    apply Z.leb_le in Hpast. by rewrite Htx, Hpast. }
  intros Hfuture. apply Z.leb_gt in Hfuture. rewrite Hfuture in Htx. split.
  { intros Hown. apply in_transaction_rollback.
    apply is_admin_owner in Hown. by rewrite Htx, Hown. }
  intros Hnot.
  destruct (is_admin user && (creatorId e =? user_id user)) eqn:Hown;
    [by apply is_admin_owner in Hown|].
  split.
  { intros Hact. apply in_transaction_rollback. rewrite Htx.
    destruct (head _) eqn:Hfind; [done|].
    by apply findOne_confirmed_for in Hfind. }
  intros Hnone. apply findOne_confirmed_for in Hnone. rewrite Hnone in Htx. split.
  { intros Hfull. apply in_transaction_rollback.
    apply Z.leb_le in Hfull. by rewrite Htx, Hfull. }
  intros Hfree. apply Z.leb_gt in Hfree. rewrite Hfree in Htx.
  rewrite (in_transaction_commit _ _ _ _ _ Htx).
  unfold createReservation_done, spots. cbn [fst snd].
  rewrite database_clearEventCaches. cbn [set_database database events reservations].
  split; [done|]. split.
  - by rewrite lookup_alter_eq, He.
  - by rewrite lookup_insert_eq.
Qed.

(** ** [cancelReservation] *)


Lemma cancel_success user rid w :
  (cancelReservation (Some user) rid w).1 = canceled →
  ∃ r, reservations (database w) !! rid = Some r ∧
       status r = CONFIRMED ∧
       (role user = RoleAdmin ∨ user_id user = userId r) ∧
       cancelReservation (Some user) rid w =
       (canceled,
        clearEventCaches (eventId r)
          (set_database
             (mkDB (alter (λ e, set_availableSpots (availableSpots e + 1) e)
                          (eventId r) (events (database w)))
                   (alter (set_status CANCELED) rid (reservations (database w)))
                   (reservations_seq (database w))) w)).
Proof.
  unfold cancelReservation.
  pose proof (cancelReservation_tx_unfold user rid (database w)) as Htx.
  destruct (reservations (database w) !! rid) as [r|] eqn:Hr;
    [|by rewrite (in_transaction_rollback _ _ _ _ Htx)].
  destruct (negb (is_admin user) && negb (user_id user =? userId r)) eqn:Hforb;
    [by rewrite (in_transaction_rollback _ _ _ _ Htx)|].
  case_bool_decide as Hst; [by rewrite (in_transaction_rollback _ _ _ _ Htx)|].
  intros _. exists r. rewrite (in_transaction_commit _ _ _ _ _ Htx).
  repeat split.
  - by destruct (status r).
  - apply andb_false_iff in Hforb as [Hna|Hno].
    + left. apply negb_false_iff in Hna. unfold is_admin in Hna.
      by apply bool_decide_eq_true in Hna.
    + right. apply negb_false_iff in Hno. by apply Z.eqb_eq in Hno.
Qed.



Lemma alter_missing {A} (f : A → A) (m : gmap Z A) k :
  m !! k = None → alter f k m = m.
Proof.
  intros Hk. apply map_eq. intros j. destruct (decide (k = j)) as [<-|Hne].
  - by rewrite lookup_alter_eq, Hk.
  - by rewrite lookup_alter_ne.
Qed.

(** ** [updateEvent]: resizing *)

Lemma apply_update_nothing e :
  apply_update (mkUpdateData None None None None None None None) e = e.
Proof. by destruct e. Qed.

(** C7, as stated, fails in two places.  In the oversold world, where event
    1 has capacity 1 and -1 available spots, a resize to the capacity it
    already has is answered 200 although 1 is below the 2 reserved spots:
    the floor is only looked at when the capacity changes.  And a resize of
    the fresh two-spot event to 2147483648, which passes validation and is
    not below the floor, is answered 500 and stores nothing: the INTEGER
    column does not take the number. *)
Lemma resize_outside_the_floor_rule :
  capacity 1 oversold = Some 1 ∧ spots 1 oversold = Some (-1) ∧
  validate_maxCapacity (Some 1) = true ∧
  res_status (updateEvent (Some root) 1 (resize_body 1) oversold).1 = 200 ∧
  capacity 1 (world_of db1) = Some 2 ∧ spots 1 (world_of db1) = Some 2 ∧
  validate_maxCapacity (Some 2147483648) = true ∧
  updateEvent (Some root) 1 (resize_body 2147483648) (world_of db1) =
  (internal_error,
   console_add (ConsoleError "Update event error:") (world_of db1)).
Proof. vm_compute. repeat split. Qed.

(** C7, amended.  For an existing event, a requester who may update it and
    a new capacity [n] that passed validation (an integer, at least 1).
    When [n] is the capacity the event already has, [updateEvent] succeeds
    and leaves events and reservations as they are.  When [n] differs, it
    answers "Cannot reduce capacity below .." and changes nothing exactly
    when [n < maxCapacity - availableSpots]; otherwise, when [n] and
    [n - (maxCapacity - availableSpots)] are within the INTEGER column, it
    succeeds, leaves the reservations alone and stores [maxCapacity = n]
    and [availableSpots = n - (maxCapacity - availableSpots)] for this
    event, every other event being untouched; and when one of the two is
    above the column's range it answers 500, logs the error and stores
    nothing. *)
Theorem updateEvent_resize_floor req_user id n w e :
  events (database w) !! id = Some e →
  not_owner_nor_admin req_user e = false →
  validate_maxCapacity (Some n) = true →
  let reserved := maxCapacity e - availableSpots e in
  let run := updateEvent req_user id (resize_body n) w in
  (n = maxCapacity e →
     res_status run.1 = 200 ∧
     reservations (database run.2) = reservations (database w) ∧
     events (database run.2) = events (database w)) ∧
  (n ≠ maxCapacity e →
     (n < reserved → run = (Fails.CapacityBelowReservedFloor reserved, w)) ∧
     (reserved ≤ n → n ≤ INT_MAX → n - reserved ≤ INT_MAX →
        res_status run.1 = 200 ∧
        reservations (database run.2) = reservations (database w) ∧
        capacity id run.2 = Some n ∧
        spots id run.2 = Some (n - reserved) ∧
        ∀ j, j ≠ id → events (database run.2) !! j = events (database w) !! j) ∧
     (reserved ≤ n → INT_MAX < n ∨ INT_MAX < n - reserved →
        run = (internal_error,
               console_add (ConsoleError "Update event error:") w))).
Proof.
  intros He Hmay Hvalid reserved run. subst run reserved.
  simpl in Hvalid. apply Z.leb_le in Hvalid.
  unfold updateEvent. rewrite He, Hmay.
  unfold handle_maxCapacity, resize_body. cbn [upd_maxCapacity].
  assert (Htruthy : truthy_number (Some n) = Some n) by (by destruct n).
  rewrite Htruthy. split.
  - intros ->. rewrite bool_decide_eq_false_2 by (intros Hne; by apply Hne).
    change (update_accepted (plain_updateData _)) with true.
    cbn [fst snd]. rewrite database_clearEventCaches.
    cbn [set_database database Event_update events reservations].
    split; [done|]. split; [done|].
    apply map_eq. intros j. destruct (decide (id = j)) as [<-|Hne].
    + rewrite lookup_alter_eq, He. simpl. f_equal. apply apply_update_nothing.
    + by rewrite lookup_alter_ne.
  - intros Hne. rewrite bool_decide_eq_true_2 by done.
    split; [|split].
    + intros Hlow. apply Z.ltb_lt in Hlow. by rewrite Hlow.
    + intros Hfloor Hn Hspots. apply Z.ltb_ge in Hfloor. rewrite Hfloor.
      assert (Hok : update_accepted
                      (with_capacity n (n - (maxCapacity e - availableSpots e))
                         (plain_updateData
                            (mkUpdateEventRequest None None None None None (Some n))))
                    = true).
      { apply Z.ltb_ge in Hfloor. unfold update_accepted, fits_INTEGER, INT_MIN, INT_MAX
          in *. cbn [with_capacity ud_maxCapacity ud_availableSpots].
        rewrite !andb_true_iff, !Z.leb_le. lia. }
      rewrite Hok. cbn [fst snd].
      unfold capacity, spots. rewrite database_clearEventCaches.
      cbn [set_database database Event_update events reservations].
      rewrite lookup_alter_eq, He. repeat split.
      intros j Hj. by rewrite lookup_alter_ne.
    + intros Hfloor Hbig. apply Z.ltb_ge in Hfloor. rewrite Hfloor.
      assert (Hno : update_accepted
                      (with_capacity n (n - (maxCapacity e - availableSpots e))
                         (plain_updateData
                            (mkUpdateEventRequest None None None None None (Some n))))
                    = false).
      { unfold update_accepted, fits_INTEGER, INT_MIN, INT_MAX in *.
        cbn [with_capacity ud_maxCapacity ud_availableSpots].
        rewrite !andb_false_iff, !Z.leb_gt. lia. }
      by rewrite Hno.
Qed.

Lemma updateEvent_resize_floor_witness :
  capacity 1 (updateEvent (Some root) 1 (resize_body 5) (world_of booked)).2 = Some 5 ∧
  spots 1 (updateEvent (Some root) 1 (resize_body 5) (world_of booked)).2 = Some 4.
Proof.
  destruct (updateEvent_resize_floor (Some root) 1 5 (world_of booked)
              (set_availableSpots 1 (fresh_event 1000 2 7)))
    as [_ Hnew].
  - vm_compute. reflexivity.
  - reflexivity.
  - reflexivity.
  - destruct Hnew as (_ & Hok & _); [simpl; lia|].
    destruct Hok as (_ & _ & Hcap & Hspots & _);
      [simpl; lia|unfold INT_MAX; lia|unfold INT_MAX; simpl; lia|].
    split; [exact Hcap|exact Hspots].
Defined.

(** ** Cancel, then book again *)

(** C8, as stated, fails for an admin who created the event: user 7 books
    a spot at their own event with a token that carries role "user", the
    reservation is canceled, and the new request, sent with a token that
    carries role "admin", is refused at the own-event check; the spots stay
    one above their value before the cancel. *)
Lemma rebook_refused_for_admin_owner :
  let w := (createReservation 10 (Some (mkAuthUser 7 RoleUser)) 1 (world_of db1)).2 in
  let w1 := (cancelReservation (Some root) 1 w).2 in
  status_of 1 w = Some CONFIRMED ∧
  (userId <$> reservations (database w) !! 1) = Some (user_id root) ∧
  (eventDate <$> events (database w) !! 1) = Some 1000 ∧
  spots 1 w = Some 1 ∧
  (cancelReservation (Some root) 1 w).1 = canceled ∧
  createReservation 10 (Some root) 1 w1 = (Fails.SelfReservationForbidden, w1) ∧
  spots 1 (createReservation 10 (Some root) 1 w1).2 = Some 2.
Proof. vm_compute. repeat split. Qed.

(** The same refusal without an admin: in the oversold world, where the
    one spot of event 1 went to two users and [availableSpots] is -1, the
    first user cancels and books again, and is told that no spot is
    available. *)
Lemma rebook_refused_when_oversold :
  let w1 := (cancelReservation (Some alice) 1 oversold).2 in
  status_of 1 oversold = Some CONFIRMED ∧
  (userId <$> reservations (database oversold) !! 1) = Some (user_id alice) ∧
  spots 1 oversold = Some (-1) ∧
  (cancelReservation (Some alice) 1 oversold).1 = canceled ∧
  createReservation 10 (Some alice) 1 w1 = (Fails.NoCapacity, w1).
Proof. vm_compute. repeat split. Qed.

(** C8, amended.  Take a confirmed reservation, the only confirmed one of
    its user for its event, the event's date being still ahead and its
    [availableSpots] not negative, and the next reservation id being
    unused.  When the reservation is canceled (by its owner or an admin)
    and the owner then books again, not being an admin who created the
    event, both requests succeed: the old reservation stays canceled, a new
    confirmed one is stored for the same pair, and the spots of the event
    end at their value before the cancel. *)
Theorem cancel_then_rebook now canceller booker rid w r e :
  reservations (database w) !! rid = Some r →
  status r = CONFIRMED →
  (∀ k r', reservations (database w) !! k = Some r' →
           status r' = CONFIRMED → eventId r' = eventId r →
           userId r' = userId r → k = rid) →
  reservations (database w) !! reservations_seq (database w) = None →
  events (database w) !! eventId r = Some e →
  0 ≤ availableSpots e →
  now < eventDate e →
  role canceller = RoleAdmin ∨ user_id canceller = userId r →
  user_id booker = userId r →
  ¬ (role booker = RoleAdmin ∧ creatorId e = user_id booker) →
  let first := cancelReservation (Some canceller) rid w in
  let run := createReservation now (Some booker) (eventId r) first.2 in
  first.1 = canceled ∧
  res_status run.1 = 201 ∧
  spots (eventId r) run.2 = Some (availableSpots e) ∧
  status_of rid run.2 = Some CANCELED ∧
  reservations (database run.2) !! reservations_seq (database w) =
    Some (mkReservation (eventId r) (userId r) CONFIRMED).
Proof.
  intros Hr Hconf Honly Hunused He Hnn Hfuture Hmay Hbooker Hnot first run.
  subst run first.
  (* the cancel *)
  pose proof (cancelReservation_tx_unfold canceller rid (database w)) as Hcancel.
  rewrite Hr, Hconf in Hcancel.
  assert (Hallowed :
            negb (is_admin canceller) && negb (user_id canceller =? userId r) = false).
  { apply andb_false_iff. destruct Hmay as [Hadm|Hown].
    - left. apply negb_false_iff. unfold is_admin. by apply bool_decide_eq_true.
    - right. apply negb_false_iff. by apply Z.eqb_eq. }
  rewrite Hallowed in Hcancel. simpl in Hcancel.
  assert (Hfirst : ∃ w1, cancelReservation (Some canceller) rid w = (canceled, w1) ∧
            database w1 =
            mkDB (alter (λ e, set_availableSpots (availableSpots e + 1) e)
                        (eventId r) (events (database w)))
                 (alter (set_status CANCELED) rid (reservations (database w)))
                 (reservations_seq (database w))).
  { eexists. split.
    - unfold cancelReservation.
      rewrite (in_transaction_commit _ _ _ _ _ Hcancel). reflexivity.
    - by rewrite database_clearEventCaches. }
  destruct Hfirst as (w1 & -> & Hd1). cbn [fst snd]. split; [done|].
  (* the new booking *)
  pose proof (createReservation_tx_unfold now booker (eventId r) (database w1))
    as Hcreate.
  assert (He1 : events (database w1) !! eventId r =
                Some (set_availableSpots (availableSpots e + 1) e))
    by (rewrite Hd1; simpl; by rewrite lookup_alter_eq, He).
  rewrite He1 in Hcreate.
  cbn [eventDate set_availableSpots creatorId availableSpots] in Hcreate.
  apply Z.leb_gt in Hfuture. rewrite Hfuture in Hcreate.
  destruct (is_admin booker && (creatorId e =? user_id booker)) eqn:Hown;
    [by apply is_admin_owner in Hown|].
  assert (Hnone : ¬ HasActiveReservation (database w1) (eventId r) (user_id booker)).
  { intros (k & r' & Hk & Hev & Hus & Hst). rewrite Hd1 in Hk. simpl in Hk.
    apply lookup_alter_Some in Hk as [(<- & r0 & _ & ->)|[Hne Hk]]; [done|].
    apply Hne. symmetry. apply (Honly k r'); try done. congruence. }
  apply findOne_confirmed_for in Hnone. rewrite Hnone in Hcreate.
  assert (Hfree : (availableSpots e + 1 <=? 0) = false) by (apply Z.leb_gt; lia).
  rewrite Hfree in Hcreate.
  unfold createReservation.
  rewrite (in_transaction_commit _ _ _ _ _ Hcreate).
  unfold createReservation_done, spots, status_of. cbn [fst snd].
  rewrite database_clearEventCaches. cbn [set_database database events reservations].
  split; [done|]. split; [|split].
  - rewrite lookup_alter_eq, He1. simpl. f_equal. lia.
  - assert (rid ≠ reservations_seq (database w1)).
    { rewrite Hd1. simpl. intros ->. by rewrite Hr in Hunused. }
    rewrite lookup_insert_ne by done. rewrite Hd1. simpl.
    by rewrite lookup_alter_eq, Hr.
  - rewrite Hd1. cbn [reservations_seq]. by rewrite lookup_insert_eq, Hbooker.
Qed.

Lemma booked_consistent : consistent booked.
Proof.
  assert (Heq : booked =
                database (handle (CreateReservation 10 (Some alice) 1)
                                 (world_of db1)).2)
    by (vm_compute; reflexivity).
  rewrite Heq.
  apply reachable_consistent, reach_handle, reach_initial, world_of_initial_db1.
Qed.

Lemma cancel_then_rebook_witness :
  (cancelReservation (Some alice) 1 (world_of booked)).1 = canceled ∧
  res_status (createReservation 10 (Some alice) 1
                (cancelReservation (Some alice) 1 (world_of booked)).2).1 = 201 ∧
  spots 1 (createReservation 10 (Some alice) 1
             (cancelReservation (Some alice) 1 (world_of booked)).2).2 = Some 1.
Proof.
  destruct (cancel_then_rebook 10 alice alice 1 (world_of booked)
              (mkReservation 1 2 CONFIRMED)
              (set_availableSpots 1 (fresh_event 1000 2 7)))
    as (H1 & H2 & H3 & _).
  - vm_compute. reflexivity.
  - reflexivity.
  - intros k r' Hk _ _ _. simpl in Hk.
    apply lookup_singleton_Some in Hk as [<- _]. reflexivity.
  - vm_compute. reflexivity.
  - vm_compute. reflexivity.
  - simpl. lia.
  - simpl. lia.
  - right. reflexivity.
  - reflexivity.
  - intros [Hadm _]. discriminate Hadm.
  - split; [exact H1|]. split; [exact H2|exact H3].
Defined.

(** ** Requests in flight *)

(** A request that runs alone does what its handler does. *)
Lemma thread_alone_create now user eid w :
  let '(t1, w1) := thread_step (Started (CreateReq now user eid)) w in
  thread_step t1 w1 =
  (Answered (createReservation now (Some user) eid w).1,
   (createReservation now (Some user) eid w).2).
Proof.
  simpl. unfold createReservation, in_transaction, run_tx, createReservation_tx,
           tx_bind, Event_findByPk.
  by destruct (createReservation_checks _ _ _ _ _).
Qed.

Lemma thread_alone_cancel user rid w :
  let '(t1, w1) := thread_step (Started (CancelReq user rid)) w in
  thread_step t1 w1 =
  (Answered (cancelReservation (Some user) rid w).1,
   (cancelReservation (Some user) rid w).2).
Proof.
  simpl. unfold cancelReservation, in_transaction, run_tx, cancelReservation_tx,
           tx_bind, Reservation_findByPk.
  by destruct (cancelReservation_checks _ _ _ _).
Qed.

(** The rest of [createReservation] when every check passes on the
    instance [e] that was read earlier and on the database [d] of now. *)
Lemma createReservation_checks_pass now user eid e d :
  now < eventDate e →
  role user = RoleUser →
  ¬ HasActiveReservation d eid (user_id user) →
  0 < availableSpots e →
  createReservation_checks now user eid (Some e) d =
  Next (reservations_seq d)
       (mkDB (alter (λ e, set_availableSpots (availableSpots e - 1) e) eid (events d))
             (<[reservations_seq d := mkReservation eid (user_id user) CONFIRMED]>
                (reservations d))
             (reservations_seq d + 1)).
Proof.
  intros Hfuture Hrole Hnone Hfree.
  unfold createReservation_checks, tx_bind, Reservation_findOne.
  apply Z.leb_gt in Hfuture, Hfree. rewrite Hfuture.
  unfold is_admin. rewrite Hrole. simpl.
  apply findOne_confirmed_for in Hnone. rewrite Hnone.
  by rewrite Hfree.
Qed.

(** Whenever one spot is left and two different users without a booking
    ask for it, both reading the event before either writes, both are
    answered 201 and the spots end at -1. *)
Lemma last_spot_race now u1 u2 eid w e :
  events (database w) !! eid = Some e →
  availableSpots e = 1 →
  now < eventDate e →
  role u1 = RoleUser → role u2 = RoleUser →
  user_id u1 ≠ user_id u2 →
  ¬ HasActiveReservation (database w) eid (user_id u1) →
  ¬ HasActiveReservation (database w) eid (user_id u2) →
  ∃ r1 r2 w',
    run_schedule [0; 1; 0; 1]%nat
      [Started (CreateReq now u1 eid); Started (CreateReq now u2 eid)] w =
    ([Answered r1; Answered r2], w') ∧
    res_status r1 = 201 ∧ res_status r2 = 201 ∧
    spots eid w' = Some (-1).
Proof.
  intros He Hone Hfuture Hrole1 Hrole2 Hne Hnone1 Hnone2.
  cbn [run_schedule lookup list_lookup thread_step insert list_insert].
  rewrite He.
  (* the first request runs to its answer *)
  pose proof (createReservation_checks_pass now u1 eid e (database w)
                Hfuture Hrole1 Hnone1 ltac:(lia)) as Hfirst.
  rewrite (in_transaction_commit _ _ _ _ _ Hfirst).
  unfold createReservation_done at 1.
  set (w1 := clearEventCaches eid _).
  assert (Hd1 : database w1 =
                mkDB (alter (λ e, set_availableSpots (availableSpots e - 1) e)
                            eid (events (database w)))
                     (<[reservations_seq (database w) :=
                          mkReservation eid (user_id u1) CONFIRMED]>
                        (reservations (database w)))
                     (reservations_seq (database w) + 1))
    by (subst w1; by rewrite database_clearEventCaches).
  (* the second one still holds the event with one spot *)
  assert (Hnone2' : ¬ HasActiveReservation (database w1) eid (user_id u2)).
  { intros (k & r & Hk & Hev & Hus & Hst). rewrite Hd1 in Hk. simpl in Hk.
    apply lookup_insert_Some in Hk as [[_ <-]|[_ Hk]].
    - simpl in Hus. done.
    - apply Hnone2. by exists k, r. }
  pose proof (createReservation_checks_pass now u2 eid e (database w1)
                Hfuture Hrole2 Hnone2' ltac:(lia)) as Hsecond.
  cbn [run_schedule lookup list_lookup thread_step insert list_insert].
  rewrite (in_transaction_commit _ _ _ _ _ Hsecond).
  unfold createReservation_done.
  eexists _, _, _. split; [reflexivity|]. split; [done|]. split; [done|].
  unfold spots. rewrite database_clearEventCaches. cbn [set_database database events].
  rewrite lookup_alter_eq, Hd1. cbn [events].
  rewrite lookup_alter_eq, He. simpl. f_equal. lia.
Qed.

(** One after the other, two requests for the last spot get one "created"
    and one "No available spots". *)
Lemma last_spot_in_turn :
  let '(ts, w) :=
    run_schedule [0; 0; 1; 1]%nat
      [Started (CreateReq 10 alice 1); Started (CreateReq 10 bob 1)]
      (world_of last_spot) in
  ts = [Answered (created 1 (database w)); Answered Fails.NoCapacity] ∧
  spots 1 w = Some 0 ∧
  count_confirmed 1 (reservations (database w)) = 1%nat.
Proof. vm_compute. repeat split. Qed.

(** C1.  Event 1 has one spot left.  Two users ask for it; both requests
    read the event before either writes.  Both are answered 201, two
    confirmed reservations are stored, and [availableSpots] ends at -1:
    nothing serialises the read of [availableSpots] with the write. *)
Theorem last_spot_sold_twice :
  let '(ts, w) :=
    run_schedule [0; 1; 0; 1]%nat
      [Started (CreateReq 10 alice 1); Started (CreateReq 10 bob 1)]
      (world_of last_spot) in
  spots 1 (world_of last_spot) = Some 1 ∧
  ts = [Answered (mkResponse 201
                    (MessageBody "Reservation created successfully"
                       (ReservationPayload 1 (Some (mkReservation 1 2 CONFIRMED)))));
        Answered (mkResponse 201
                    (MessageBody "Reservation created successfully"
                       (ReservationPayload 2 (Some (mkReservation 1 3 CONFIRMED)))))] ∧
  spots 1 w = Some (-1) ∧
  capacity 1 w = Some 1 ∧
  count_confirmed 1 (reservations (database w)) = 2%nat.
Proof. vm_compute. repeat split. Qed.

(** ** Cancel and the capacity *)

(** [Event.reserveSpot] and [Event.cancelSpot] keep the spots between 0
    and the capacity. *)
Lemma reserveSpot_within_capacity e :
  0 ≤ availableSpots e ≤ maxCapacity e →
  0 ≤ availableSpots (EventModel.reserveSpot e).1
    ≤ maxCapacity (EventModel.reserveSpot e).1.
Proof.
  intros Hle. unfold EventModel.reserveSpot.
  destruct (0 <? availableSpots e) eqn:Hlt; simpl; [|done].
  apply Z.ltb_lt in Hlt. lia.
Qed.

(** [Event.cancelSpot] never lifts the spots above the capacity. *)
Lemma cancelSpot_clamped e :
  availableSpots e ≤ maxCapacity e →
  availableSpots (EventModel.cancelSpot e) ≤ maxCapacity (EventModel.cancelSpot e).
Proof.
  intros Hle. unfold EventModel.cancelSpot.
  destruct (availableSpots e <? maxCapacity e) eqn:Hlt; simpl; [|done].
  apply Z.ltb_lt in Hlt. lia.
Qed.

Lemma cancelSpot_at_capacity e :
  availableSpots e = maxCapacity e → EventModel.cancelSpot e = e.
Proof.
  intros Heq. unfold EventModel.cancelSpot. by rewrite Heq, Z.ltb_irrefl.
Qed.

(** [cancelReservation] adds one spot whatever the capacity. *)
Lemma cancel_adds_one_spot user rid w r e :
  reservations (database w) !! rid = Some r →
  status r = CONFIRMED →
  role user = RoleAdmin ∨ user_id user = userId r →
  events (database w) !! eventId r = Some e →
  (cancelReservation (Some user) rid w).1 = canceled ∧
  spots (eventId r) (cancelReservation (Some user) rid w).2 =
  Some (availableSpots e + 1).
Proof.
  intros Hr Hconf Hmay He. unfold cancelReservation.
  pose proof (cancelReservation_tx_unfold user rid (database w)) as Htx.
  rewrite Hr, Hconf in Htx.
  assert (Hallowed : negb (is_admin user) && negb (user_id user =? userId r) = false).
  { apply andb_false_iff. destruct Hmay as [Hadm|Hown].
    - left. apply negb_false_iff. unfold is_admin. by apply bool_decide_eq_true.
    - right. apply negb_false_iff. by apply Z.eqb_eq. }
  rewrite Hallowed in Htx. simpl in Htx.
  rewrite (in_transaction_commit _ _ _ _ _ Htx).
  unfold cancelReservation_done, spots. cbn [fst snd].
  rewrite database_clearEventCaches. cbn [set_database database events].
  split; [done|]. by rewrite lookup_alter_eq, He.
Qed.

(** Two cancels of one reservation that both read it before either writes
    add two spots: with two bookings at the two-spot event of [db1], the
    spots are back at the capacity while one booking is still confirmed. *)
Lemma cancel_twice_in_flight :
  let '(ts, w) :=
    run_schedule [0; 1; 0; 1]%nat
      [Started (CancelReq alice 1); Started (CancelReq alice 1)] two_bookings in
  ts = [Answered canceled; Answered canceled] ∧
  spots 1 w = Some 2 ∧ capacity 1 w = Some 2 ∧
  status_of 2 w = Some CONFIRMED ∧
  spots 1 (cancelReservation (Some bob) 2 w).2 = Some 3.
Proof. vm_compute. repeat split. Qed.

(** C4.  Event 1 has capacity 1 and 1 available spot, and reservation 1
    for it is confirmed.  Its cancel succeeds and stores 2 available spots,
    above the capacity, where [Event.cancelSpot] leaves the row alone. *)
Theorem cancel_lifts_spots_above_capacity :
  let run := cancelReservation (Some alice) 1 (world_of unpaired) in
  spots 1 (world_of unpaired) = Some 1 ∧
  capacity 1 (world_of unpaired) = Some 1 ∧
  status_of 1 (world_of unpaired) = Some CONFIRMED ∧
  run.1 = canceled ∧
  status_of 1 run.2 = Some CANCELED ∧
  spots 1 run.2 = Some 2 ∧
  capacity 1 run.2 = Some 1 ∧
  (availableSpots ∘ EventModel.cancelSpot <$> events unpaired !! 1) = Some 1.
Proof. vm_compute. repeat split. Qed.

(** ** The ledger when requests overlap *)

Lemma two_bookings_reachable : reachable two_bookings.
Proof.
  unfold two_bookings. do 2 apply reach_handle.
  apply reach_initial, world_of_initial_db1.
Qed.

Lemma last_spot_initial : initial last_spot.
Proof.
  split; [done|]. intros id e He. simpl in He.
  apply lookup_singleton_Some in He as [_ <-]. simpl. lia.
Qed.

(** C2.  [0 <= availableSpots <= maxCapacity] does not hold in every state
    the handlers reach, since requests may overlap.  From the fresh
    one-spot event, two bookings that both read the event before either
    writes leave [availableSpots = -1].  From the two-spot event with its
    two bookings, two cancels of reservation 1 that both read it before
    either writes, followed by the cancel of reservation 2, leave
    [availableSpots = 3] with [maxCapacity = 2]. *)
Theorem availableSpots_leaves_its_bounds :
  initial last_spot ∧ reachable two_bookings ∧
  let below :=
    (run_schedule [0; 1; 0; 1]%nat
       [Started (CreateReq 10 alice 1); Started (CreateReq 10 bob 1)]
       (world_of last_spot)).2 in
  let above :=
    (cancelReservation (Some bob) 2
       (run_schedule [0; 1; 0; 1]%nat
          [Started (CancelReq alice 1); Started (CancelReq alice 1)]
          two_bookings).2).2 in
  spots 1 below = Some (-1) ∧ capacity 1 below = Some 1 ∧
  spots 1 above = Some 3 ∧ capacity 1 above = Some 2.
Proof.
  split; [exact last_spot_initial|].
  split; [exact two_bookings_reachable|].
  vm_compute. repeat split.
Qed.

(** C3.  [availableSpots = maxCapacity - |confirmed reservations|] does not
    hold after every operation that completes.  With both spots of event 1
    booked, two cancels of reservation 1 that both read it as confirmed
    before either writes are both answered 200 and each adds a spot:
    [availableSpots] is 2, the capacity, while reservation 2 is still
    confirmed. *)
Theorem availableSpots_miscounts_confirmed :
  reachable two_bookings ∧
  spots 1 two_bookings = Some 0 ∧
  count_confirmed 1 (reservations (database two_bookings)) = 2%nat ∧
  let '(ts, w) :=
    run_schedule [0; 1; 0; 1]%nat
      [Started (CancelReq alice 1); Started (CancelReq alice 1)] two_bookings in
  ts = [Answered canceled; Answered canceled] ∧
  spots 1 w = Some 2 ∧ capacity 1 w = Some 2 ∧
  status_of 1 w = Some CANCELED ∧ status_of 2 w = Some CONFIRMED ∧
  count_confirmed 1 (reservations (database w)) = 1%nat.
Proof.
  split; [exact two_bookings_reachable|].
  vm_compute. repeat split.
Qed.

(** ** A cancel whose event is gone *)

Lemma is_Some_alter {A} (f : A → A) (m : gmap Z A) i j :
  is_Some (m !! j) → is_Some (alter f i m !! j).
Proof.
  intros Hj. destruct (decide (i = j)) as [->|Hne].
  - rewrite lookup_alter_eq. by apply fmap_is_Some.
  - by rewrite lookup_alter_ne.
Qed.

(** The three handlers keep every stored reservation pointing at a stored
    event. *)
Lemma handle_no_orphan op w :
  no_orphan (database w) → no_orphan (database (handle op w).2).
Proof.
  intros Hno.
  destruct op as [now [user|] eid|[user|] rid|req_user id body]; simpl; try done.
  - unfold createReservation.
    rewrite in_transaction_database by (intros; apply database_clearEventCaches).
    rewrite createReservation_tx_unfold.
    destruct (events (database w) !! eid) as [e|] eqn:He; [|done].
    destruct (eventDate e <=? now); [done|].
    destruct (is_admin user && _); [done|].
    destruct (head _); [done|].
    destruct (availableSpots e <=? 0); [done|].
    intros k r Hk. cbn [reservations events] in *.
    apply is_Some_alter.
    apply lookup_insert_Some in Hk as [[_ <-]|[_ Hk]].
    + simpl. by rewrite He.
    + by apply (Hno k).
  - unfold cancelReservation.
    rewrite in_transaction_database by (intros; apply database_clearEventCaches).
    rewrite cancelReservation_tx_unfold.
    destruct (reservations (database w) !! rid) as [r0|] eqn:Hr0; [|done].
    destruct (negb (is_admin user) && _); [done|].
    case_bool_decide; [done|].
    intros k r Hk. cbn [reservations events] in *.
    apply is_Some_alter.
    apply lookup_alter_Some in Hk as [(_ & r1 & Hr1 & ->)|[_ Hk]].
    + exact (Hno k r1 Hr1).
    + by apply (Hno k).
  - unfold updateEvent.
    destruct (events (database w) !! id) as [e|]; [|done].
    destruct (not_owner_nor_admin req_user e); [done|].
    destruct (handle_maxCapacity body e (plain_updateData body)) as [res|u]; [done|].
    destruct (update_accepted u); [|done].
    cbn [fst snd]. rewrite database_clearEventCaches.
    intros k r Hk. cbn [set_database database Event_update reservations events] in *.
    apply is_Some_alter. by apply (Hno k).
Qed.

(** So does [deleteEvent], whatever the foreign key does on delete: the
    reservations of the event go with it, or the delete is refused. *)
Lemma deleteEvent_no_orphan fk req_user id w :
  no_orphan (database w) → no_orphan (database (deleteEvent fk req_user id w).2).
Proof.
  intros Hno. unfold deleteEvent.
  destruct (events (database w) !! id) as [e|]; [|done].
  destruct (not_owner_nor_admin req_user e); [done|].
  destruct fk; unfold Event_destroy.
  - cbn [fst snd]. rewrite database_clearEventCaches.
    intros k r Hk. cbn [set_database database events reservations] in *.
    apply matching_lookup in Hk as [Hk Hother].
    apply negb_true_iff, Z.eqb_neq in Hother.
    rewrite lookup_delete_ne by done. by apply (Hno k).
  - case_bool_decide as Hsize; [|done]. cbn [fst snd].
    rewrite database_clearEventCaches.
    intros k r Hk. cbn [set_database database events reservations] in *.
    apply map_size_empty_iff in Hsize.
    destruct (decide (eventId r = id)) as [Heq|Hne].
    + assert (Hin : matching (refers_to id) (reservations (database w)) !! k = Some r)
        by (apply matching_lookup; split; [done|by apply Z.eqb_eq]).
      by rewrite Hsize in Hin.
    + rewrite lookup_delete_ne by done. by apply (Hno k).
Qed.

(** In every world reached by whole requests, a stored reservation has its
    event: a cancel handled on its own never finds the event missing. *)
Lemma reachable_no_orphan w : reachable w → no_orphan (database w).
Proof.
  induction 1 as [w [Hempty _]|op w _ IH].
  - intros k r Hk. by rewrite Hempty in Hk.
  - by apply handle_no_orphan.
Qed.

(** C10, as stated, fails in the one case where the code meets a missing
    event.  A cancel of the confirmed reservation 1 has read its row; an
    admin deletes event 1, and the reservation goes with it; the cancel
    then runs on.  It answers "Reservation canceled successfully", but no
    reservation is stored as canceled: the row is gone, and the database
    is as the delete left it. *)
Lemma cancel_after_delete_stores_nothing :
  let '(t, w0) := thread_step (Started (CancelReq alice 1)) (world_of booked) in
  let '(res, w1) := deleteEvent CASCADE (Some root) 1 w0 in
  let '(t', w2) := thread_step t w1 in
  t = HasReservation alice 1 (Some (mkReservation 1 2 CONFIRMED)) ∧
  res = event_deleted ∧
  events (database w1) !! 1 = None ∧
  t' = Answered canceled ∧
  status_of 1 w2 = None ∧
  database w2 = database w1.
Proof. vm_compute. repeat split. Qed.

(** C10, amended.  A cancel has read a confirmed reservation, the requester
    being its owner or an admin, and the event of the reservation is gone
    when the cancel goes on.  Then the cancel answers "Reservation canceled
    successfully" and leaves every event row as it is; the row of the
    reservation gets status canceled if it is still stored, no row is
    written if it is not, and no other reservation changes. *)
Theorem cancel_finds_event_gone user rid r w :
  status r = CONFIRMED →
  role user = RoleAdmin ∨ user_id user = userId r →
  events (database w) !! eventId r = None →
  let run := thread_step (HasReservation user rid (Some r)) w in
  run.1 = Answered canceled ∧
  events (database run.2) = events (database w) ∧
  reservations (database run.2) !! rid =
    (set_status CANCELED <$> reservations (database w) !! rid) ∧
  (reservations (database w) !! rid = None →
     reservations (database run.2) = reservations (database w)) ∧
  ∀ k, k ≠ rid →
    reservations (database run.2) !! k = reservations (database w) !! k.
Proof.
  intros Hconf Hmay He run. subst run.
  assert (Hallowed :
            negb (is_admin user) && negb (user_id user =? userId r) = false).
  { apply andb_false_iff. destruct Hmay as [Hadm|Hown].
    - left. apply negb_false_iff. unfold is_admin. by apply bool_decide_eq_true.
    - right. apply negb_false_iff. by apply Z.eqb_eq. }
  assert (Htx : cancelReservation_checks user rid (Some r) (database w) =
                Next (eventId r)
                     (mkDB (events (database w))
                           (alter (set_status CANCELED) rid (reservations (database w)))
                           (reservations_seq (database w)))).
  { unfold cancelReservation_checks. rewrite Hallowed.
    rewrite bool_decide_eq_false_2 by (by rewrite Hconf).
    unfold tx_bind, Reservation_update_status, Event_findByPk, Event_increment, tx_ret.
    simpl. by rewrite He. }
  unfold thread_step. rewrite (in_transaction_commit _ _ _ _ _ Htx).
  unfold cancelReservation_done. cbn [fst snd].
  rewrite database_clearEventCaches. cbn [set_database database events reservations].
  split; [done|]. split; [done|]. split; [|split].
  - by rewrite lookup_alter_eq.
  - intros Hnone. by apply alter_missing.
  - intros k Hk. by rewrite lookup_alter_ne.
Qed.

Lemma cancel_finds_event_gone_witness :
  (thread_step (HasReservation alice 1 (Some (mkReservation 1 2 CONFIRMED)))
     event_gone).1 = Answered canceled ∧
  reservations
    (database (thread_step (HasReservation alice 1 (Some (mkReservation 1 2 CONFIRMED)))
                 event_gone).2) = reservations (database event_gone).
Proof.
  destruct (cancel_finds_event_gone alice 1 (mkReservation 1 2 CONFIRMED) event_gone)
    as (Hanswer & _ & _ & Hsame & _).
  - reflexivity.
  - right. reflexivity.
  - vm_compute. reflexivity.
  - split; [exact Hanswer|]. apply Hsame. vm_compute. reflexivity.
Defined.

(** ** Cache invalidation *)

Lemma accounted_refl w : accounted w w.
Proof. exists [], []. by rewrite !app_nil_r. Qed.

Lemma accounted_trans w1 w2 w3 :
  accounted w1 w2 → accounted w2 w3 → accounted w1 w3.
Proof.
  intros (c1 & l1 & Hs1 & Hc1 & Hf1 & Hn1) (c2 & l2 & Hs2 & Hc2 & Hf2 & Hn2).
  exists (c1 ++ c2), (l1 ++ l2).
  rewrite Hs2, Hs1, Hc2, Hc1, Hf2, Hf1, !app_assoc. repeat split.
  - by rewrite drop_drop, length_app.
  - rewrite length_app, <- take_take_drop, !filter_app, !length_app.
    by rewrite Hn1, Hn2, Hf1.
Qed.

Lemma accounted_console_log line w :
  accounted w (console_add (ConsoleLog line) w).
Proof. exists [], [ConsoleLog line]. by rewrite app_nil_r. Qed.

Lemma accounted_cache_remove ks w : accounted w (cache_remove ks w).
Proof. exists [], []. by rewrite !app_nil_r. Qed.

(** One command and, when it is rejected, one error line. *)
Lemma accounted_send c line w :
  accounted w
    (if (redis_send c w).1
     then console_add (ConsoleError line) (redis_send c w).2
     else (redis_send c w).2).
Proof.
  unfold redis_send. cbn [fst snd].
  destruct (redis_faults w) as [|[] fs] eqn:Hfs; simpl.
  - exists [c], []. by rewrite app_nil_r, Hfs.
  - exists [c], [ConsoleError line]. by rewrite Hfs.
  - exists [c], []. by rewrite app_nil_r, Hfs.
Qed.

Lemma accounted_del key w : accounted w (cacheUtils.del key w).
Proof.
  unfold cacheUtils.del.
  pose proof (accounted_send (DEL [key]) "Cache delete error:" w) as Hsend.
  destruct (redis_send (DEL [key]) w) as [[] w1]; cbn [fst snd] in Hsend; [done|].
  eapply accounted_trans; [exact Hsend|apply accounted_cache_remove].
Qed.

Lemma accounted_delPattern p w : accounted w (cacheUtils.delPattern p w).
Proof.
  unfold cacheUtils.delPattern.
  pose proof (accounted_send (KEYS p) "Cache pattern delete error:" w) as Hsend.
  destruct (redis_send (KEYS p) w) as [[] w1]; cbn [fst snd] in Hsend; [done|].
  case_bool_decide; [|done].
  set (keys := filter _ (cache w1)).
  pose proof (accounted_send (DEL (elements keys)) "Cache pattern delete error:" w1)
    as Hsend2.
  destruct (redis_send (DEL (elements keys)) w1) as [[] w2];
    cbn [fst snd] in Hsend2.
  - by eapply accounted_trans.
  - eapply accounted_trans; [exact Hsend|].
    eapply accounted_trans; [exact Hsend2|].
    eapply accounted_trans; [apply accounted_cache_remove|].
    apply accounted_console_log.
Qed.

Lemma accounted_clearEventCaches eid w : accounted w (clearEventCaches eid w).
Proof.
  unfold clearEventCaches.
  eapply accounted_trans; [apply accounted_del|].
  eapply accounted_trans; [apply accounted_del|].
  eapply accounted_trans; [apply accounted_delPattern|].
  apply accounted_console_log.
Qed.

Lemma accounted_errors w w' :
  accounted w w' → errors_logged w w' = rejected_between w w'.
Proof.
  intros (cmds & lines & Hs & Hc & _ & Hn).
  unfold errors_logged, rejected_between, sent_between.
  by rewrite Hs, Hc, !drop_app_length.
Qed.

Lemma sent_del key w :
  redis_sent (cacheUtils.del key w) = redis_sent w ++ [DEL [key]].
Proof. unfold cacheUtils.del. simpl. by destruct (default false _). Qed.

Lemma sent_delPattern p w :
  ∃ more, redis_sent (cacheUtils.delPattern p w) = redis_sent w ++ KEYS p :: more.
Proof.
  unfold cacheUtils.delPattern. simpl.
  destruct (default false (head (redis_faults w))); [by exists []|]. simpl.
  case_bool_decide; [|by exists []]. simpl.
  destruct (default false _); simpl; rewrite <- app_assoc; by eexists.
Qed.

Lemma sent_clearEventCaches eid w :
  ∃ more, redis_sent (clearEventCaches eid w) = redis_sent w ++ signals eid ++ more.
Proof.
  unfold clearEventCaches. simpl.
  destruct (sent_delPattern "events:page:*"
              (cacheUtils.del (CACHE_KEYS.EVENT_DETAILS eid)
                 (cacheUtils.del CACHE_KEYS.POPULAR_EVENTS w))) as [more ->].
  exists more. rewrite !sent_del, <- !app_assoc. done.
Qed.

Lemma redis_up_send c w :
  redis_up w → (redis_send c w).1 = false ∧ redis_up (redis_send c w).2.
Proof.
  unfold redis_up, redis_send. simpl. intros Hup.
  destruct (redis_faults w) as [|b fs]; [done|].
  apply Forall_cons in Hup as [-> Hup]. done.
Qed.

Lemma del_up key w :
  redis_up w →
  redis_up (cacheUtils.del key w) ∧
  cache (cacheUtils.del key w) = cache w ∖ {[ key ]}.
Proof.
  intros Hup. unfold cacheUtils.del.
  destruct (redis_up_send (DEL [key]) w Hup) as [Hok Hup1].
  destruct (redis_send (DEL [key]) w) as [b w1] eqn:Hsend. simpl in Hok, Hup1.
  subst b. split; [done|].
  unfold redis_send in Hsend. injection Hsend as _ <-. done.
Qed.

Lemma delPattern_up p w k :
  redis_up w →
  k ∈ cache (cacheUtils.delPattern p w) →
  k ∈ cache w ∧ glob_match p k = false.
Proof.
  intros Hup. unfold cacheUtils.delPattern.
  destruct (redis_up_send (KEYS p) w Hup) as [Hok Hup1].
  destruct (redis_send (KEYS p) w) as [b w1] eqn:Hsend. simpl in Hok, Hup1.
  subst b.
  assert (Hcache : cache w1 = cache w)
    by (unfold redis_send in Hsend; by injection Hsend as _ <-).
  set (keys := filter _ (cache w1)).
  case_bool_decide as Hsome.
  - destruct (redis_up_send (DEL (elements keys)) w1 Hup1) as [Hok2 _].
    destruct (redis_send (DEL (elements keys)) w1) as [b2 w2] eqn:Hsend2.
    simpl in Hok2. subst b2.
    assert (Hcache2 : cache w2 = cache w1)
      by (unfold redis_send in Hsend2; by injection Hsend2 as _ <-).
    simpl. rewrite Hcache2, <- Hcache. intros [Hin Hnot]%elem_of_difference.
    split; [done|]. destruct (glob_match p k) eqn:Hm; [|done].
    destruct Hnot. subst keys. apply elem_of_filter. done.
  - rewrite <- Hcache. intros Hin. split; [done|].
    destruct (glob_match p k) eqn:Hm; [|done].
    destruct Hsome. apply Nat.neq_0_lt_0. intros Hzero.
    apply size_empty_inv in Hzero.
    assert (Hk : k ∈ keys) by (subst keys; apply elem_of_filter; done).
    rewrite Hzero in Hk. exact (not_elem_of_empty _ Hk).
Qed.

Lemma glob_star s : glob_match "*" s = true.
Proof.
  induction s as [|c s IH]; [done|].
  simpl in *. by rewrite IH.
Qed.

(** Every key built by [getAllEvents] matches the pattern of
    [clearEventCaches]. *)
Lemma glob_event_list page limit rest :
  glob_match "events:page:*" (CACHE_KEYS.EVENT_LIST page limit +:+ rest) = true.
Proof.
  unfold CACHE_KEYS.EVENT_LIST.
  change (glob_match "*" ((pretty page +:+ ":limit:" +:+ pretty limit) +:+ rest) = true).
  apply glob_star.
Qed.

Lemma clearEventCaches_up eid w k :
  redis_up w →
  k ∈ cache (clearEventCaches eid w) →
  k ∈ cache w ∧ k ≠ CACHE_KEYS.POPULAR_EVENTS ∧
  k ≠ CACHE_KEYS.EVENT_DETAILS eid ∧ glob_match "events:page:*" k = false.
Proof.
  intros Hup. unfold clearEventCaches. simpl.
  destruct (del_up CACHE_KEYS.POPULAR_EVENTS w Hup) as [Hup1 Hc1].
  destruct (del_up (CACHE_KEYS.EVENT_DETAILS eid) _ Hup1) as [Hup2 Hc2].
  intros [Hin Hglob]%delPattern_up; [|done].
  rewrite Hc2, Hc1 in Hin.
  apply elem_of_difference in Hin as [Hin Hne2].
  apply elem_of_difference in Hin as [Hin Hne1].
  rewrite elem_of_singleton in Hne1, Hne2. done.
Qed.

(** A request that succeeds ends with [clearEventCaches] for its event, on
    the world that holds the committed database. *)
Lemma handle_success op w :
  succeeded (handle op w).1 = true →
  ∃ eid d, event_of op (database w) = Some eid ∧
           (handle op w).2 = clearEventCaches eid (set_database d w).
Proof.
  destruct op as [now [user|] eid|[user|] rid|req_user id body]; simpl; try done.
  - unfold createReservation, in_transaction, run_tx.
    rewrite createReservation_tx_unfold.
    destruct (events (database w) !! eid) as [e|]; [|done].
    destruct (eventDate e <=? now); [done|].
    destruct (is_admin user && _); [done|].
    destruct (head _); [done|].
    destruct (availableSpots e <=? 0); [done|].
    intros _. by eexists _, _.
  - unfold cancelReservation, in_transaction, run_tx.
    rewrite cancelReservation_tx_unfold.
    destruct (reservations (database w) !! rid) as [r|]; [|done].
    destruct (negb (is_admin user) && _); [done|].
    case_bool_decide; [done|].
    intros _. by eexists _, _.
  - unfold updateEvent.
    destruct (events (database w) !! id) as [e|]; [|done].
    destruct (not_owner_nor_admin req_user e); [done|].
    destruct (handle_maxCapacity body e (plain_updateData body)) as [res|u] eqn:Hu.
    + unfold handle_maxCapacity in Hu.
      destruct (truthy_number _); [|done].
      case_bool_decide; [|done].
      destruct (_ <? _); [|done]. by injection Hu as <-.
    + destruct (update_accepted u); [|done].
      intros _. by eexists _, _.
Qed.

(** The answer and the database a request leaves depend on the database
    it finds, not on the cache, the console or the fate of Redis. *)
Lemma handle_database_only op w1 w2 :
  database w1 = database w2 →
  (handle op w1).1 = (handle op w2).1 ∧
  database (handle op w1).2 = database (handle op w2).2.
Proof.
  intros Hdb.
  destruct op as [now [user|] eid|[user|] rid|req_user id body]; simpl; try done.
  - unfold createReservation, in_transaction, run_tx. rewrite Hdb.
    destruct (createReservation_tx now user eid (database w2)); [|done].
    unfold createReservation_done. cbn [fst snd].
    by rewrite !database_clearEventCaches.
  - unfold cancelReservation, in_transaction, run_tx. rewrite Hdb.
    destruct (cancelReservation_tx user rid (database w2)); [|done].
    unfold cancelReservation_done. cbn [fst snd].
    by rewrite !database_clearEventCaches.
  - unfold updateEvent. rewrite Hdb.
    destruct (events (database w2) !! id) as [e|]; [|done].
    destruct (not_owner_nor_admin req_user e); [done|].
    destruct (handle_maxCapacity body e (plain_updateData body)) as [res|u];
      [done|].
    destruct (update_accepted u); [|done].
    cbn [fst snd]. by rewrite !database_clearEventCaches.
Qed.

(** C9.  A [createReservation], [cancelReservation] or [updateEvent] that
    succeeds sends, after its commit, the invalidations of the popular
    events, of the details of its event and of all event lists.  Each
    command Redis rejects leaves one error line on the console, and nothing
    else: the answer and the committed database are what they are with any
    cache and any fate of Redis.  When Redis accepts the commands, the
    popular-events key, the details key of the event and every key of an
    event list are gone from the cache. *)
Theorem invalidation_after_success op w :
  succeeded (handle op w).1 = true →
  ∃ eid, event_of op (database w) = Some eid ∧
    let w' := (handle op w).2 in
    (∃ more, sent_between w w' = signals eid ++ more) ∧
    errors_logged w w' = rejected_between w w' ∧
    (∀ keys fates,
       let w2 := mkWorld (database w) keys (console w) (redis_sent w) fates in
       (handle op w2).1 = (handle op w).1 ∧
       database (handle op w2).2 = database (handle op w).2) ∧
    (redis_up w →
       (CACHE_KEYS.POPULAR_EVENTS ∉ cache w') ∧
       (CACHE_KEYS.EVENT_DETAILS eid ∉ cache w') ∧
       ∀ page limit rest, CACHE_KEYS.EVENT_LIST page limit +:+ rest ∉ cache w').
Proof.
  intros Hok. destruct (handle_success op w Hok) as (eid & d & Hev & Hw').
  exists eid. split; [done|]. cbn zeta. rewrite Hw'. split; [|split; [|split]].
  - destruct (sent_clearEventCaches eid (set_database d w)) as [more Hsent].
    exists more. unfold sent_between. rewrite Hsent. simpl.
    by rewrite drop_app_length.
  - apply accounted_errors.
    apply (accounted_trans _ (set_database d w)); [|apply accounted_clearEventCaches].
    exists [], []. by rewrite !app_nil_r.
  - intros keys fates. rewrite <- Hw'. by apply handle_database_only.
  - intros Hup.
    assert (Hgone : ∀ k, k ∈ cache (clearEventCaches eid (set_database d w)) →
              k ≠ CACHE_KEYS.POPULAR_EVENTS ∧ k ≠ CACHE_KEYS.EVENT_DETAILS eid ∧
              glob_match "events:page:*" k = false).
    { intros k Hk.
      by destruct (clearEventCaches_up eid (set_database d w) k Hup Hk) as (_ & ?). }
    split; [|split].
    + intros Hin. by destruct (Hgone _ Hin) as (? & _).
    + intros Hin. by destruct (Hgone _ Hin) as (_ & ? & _).
    + intros page limit rest Hin. destruct (Hgone _ Hin) as (_ & _ & Hglob).
      by rewrite glob_event_list in Hglob.
Qed.

Lemma invalidation_after_success_witness :
  errors_logged flaky (handle (CreateReservation 10 (Some alice) 1) flaky).2 = 1%nat ∧
  elements (cache (handle (CreateReservation 10 (Some alice) 1) flaky).2) =
    ["event:2"; "popular_events"].
Proof.
  destruct (invalidation_after_success (CreateReservation 10 (Some alice) 1) flaky)
    as (eid & _ & _ & Hlogged & _).
  - vm_compute. reflexivity.
  - split; [|vm_compute; reflexivity].
    rewrite Hlogged. vm_compute. reflexivity.
Defined.

(** * Further properties of the handlers *)

(** ** Invariants over sequences of requests *)

(** X1.  In every world reached from freshly created events by
    [createReservation], [cancelReservation] and [updateEvent] requests, a
    user holds at most one confirmed reservation per event: two confirmed
    rows for the same event and user are the same row. *)
Theorem no_double_booking w k1 k2 r1 r2 :
  reachable w →
  reservations (database w) !! k1 = Some r1 →
  reservations (database w) !! k2 = Some r2 →
  status r1 = CONFIRMED → status r2 = CONFIRMED →
  eventId r1 = eventId r2 → userId r1 = userId r2 →
  k1 = k2.
Proof.
  intros Hreach. destruct (reachable_consistent _ Hreach) as (_ & Huniq & _).
  apply Huniq.
Qed.

Lemma no_double_booking_witness : (1 : Z) = 1.
Proof.
  apply (no_double_booking two_bookings 1 1
           (mkReservation 1 2 CONFIRMED) (mkReservation 1 2 CONFIRMED)
           two_bookings_reachable);
    solve [vm_compute; reflexivity | reflexivity].
Defined.

(** X2.  In every such world no event has more confirmed reservations than
    its capacity. *)
Theorem never_overbooked w id e :
  reachable w →
  events (database w) !! id = Some e →
  Z.of_nat (count_confirmed id (reservations (database w))) ≤ maxCapacity e.
Proof.
  intros Hreach He. destruct (reachable_consistent _ Hreach) as (_ & _ & Hled).
  destruct (Hled _ _ He). lia.
Qed.

Lemma never_overbooked_witness :
  Z.of_nat (count_confirmed 1 (reservations (database two_bookings))) ≤
  maxCapacity (set_availableSpots 0 (fresh_event 1000 2 7)).
Proof.
  apply (never_overbooked two_bookings 1 _ two_bookings_reachable).
  vm_compute. reflexivity.
Defined.

(** X3.  A request that the handler refuses by one of its own checks (an
    answer in the 400s: 400, 401, 403 or 404) leaves everything as it was:
    database, cache, console and the commands sent to Redis.  An answer
    of 500 is not covered: the [catch] branch writes to the console. *)
Theorem refused_request_changes_nothing op w :
  400 ≤ res_status (handle op w).1 < 500 → (handle op w).2 = w.
Proof.
  destruct op as [now [user|] eid|[user|] rid|req_user id body]; simpl; try done.
  - unfold createReservation, in_transaction, run_tx.
    destruct (createReservation_tx now user eid (database w)); [|done].
    simpl. lia.
  - unfold cancelReservation, in_transaction, run_tx.
    destruct (cancelReservation_tx user rid (database w)); [|done].
    simpl. lia.
  - unfold updateEvent.
    destruct (events (database w) !! id) as [e|]; [|done].
    destruct (not_owner_nor_admin req_user e); [done|].
    destruct (handle_maxCapacity body e (plain_updateData body)); [done|].
    destruct (update_accepted _); simpl; lia.
Qed.

Lemma refused_request_changes_nothing_witness :
  (handle (CreateReservation 10 (Some root) 1) flaky).2 = flaky.
Proof.
  apply (refused_request_changes_nothing (CreateReservation 10 (Some root) 1) flaky).
  vm_compute. split; [discriminate|reflexivity].
Defined.

(** The same for [updateEvent] answering 500: the rows stay as they were
    and the console gets one more line. *)
Lemma updateEvent_500_keeps_database req_user id body w :
  res_status (updateEvent req_user id body w).1 = 500 →
  (updateEvent req_user id body w).2 =
  console_add (ConsoleError "Update event error:") w.
Proof.
  unfold updateEvent.
  destruct (events (database w) !! id) as [e|]; [|done].
  destruct (not_owner_nor_admin req_user e); [done|].
  destruct (handle_maxCapacity body e (plain_updateData body)) as [res|u] eqn:Hm.
  - unfold handle_maxCapacity in Hm.
    destruct (truthy_number _); [|done].
    case_bool_decide; [|done].
    destruct (_ <? _); [|done].
    by injection Hm as <-.
  - by destruct (update_accepted u).
Qed.

(** One request keeps every stored reservation under its key, for the same
    event and user, and keeps a canceled one canceled. *)
Lemma handle_keeps_reservation op w k r :
  seq_fresh (database w) →
  reservations (database w) !! k = Some r →
  ∃ r', reservations (database (handle op w).2) !! k = Some r' ∧
        eventId r' = eventId r ∧ userId r' = userId r ∧
        (status r = CANCELED → status r' = CANCELED).
Proof.
  intros Hseq Hk.
  destruct op as [now [user|] eid|[user|] rid|req_user id body]; simpl;
    try (by exists r).
  - unfold createReservation.
    rewrite in_transaction_database by (intros; apply database_clearEventCaches).
    rewrite createReservation_tx_unfold.
    destruct (events (database w) !! eid) as [e|]; [|by exists r].
    destruct (eventDate e <=? now); [by exists r|].
    destruct (is_admin user && _); [by exists r|].
    destruct (head _); [by exists r|].
    destruct (availableSpots e <=? 0); [by exists r|].
    exists r. cbn [reservations]. rewrite lookup_insert_ne; [done|].
    specialize (Hseq k (mk_is_Some _ _ Hk)). lia.
  - unfold cancelReservation.
    rewrite in_transaction_database by (intros; apply database_clearEventCaches).
    rewrite cancelReservation_tx_unfold.
    destruct (reservations (database w) !! rid) as [r0|] eqn:Hr0; [|by exists r].
    destruct (negb (is_admin user) && _); [by exists r|].
    case_bool_decide; [by exists r|].
    cbn [reservations]. destruct (decide (rid = k)) as [->|Hne].
    + rewrite lookup_alter_eq, Hk. by exists (set_status CANCELED r).
    + rewrite lookup_alter_ne by done. by exists r.
  - unfold updateEvent.
    destruct (events (database w) !! id) as [e|]; [|by exists r].
    destruct (not_owner_nor_admin req_user e); [by exists r|].
    destruct (handle_maxCapacity body e (plain_updateData body)) as [res|u];
      [by exists r|].
    destruct (update_accepted u); [|by exists r].
    cbn [snd]. rewrite database_clearEventCaches. by exists r.
Qed.

Lemma handle_all_consistent ops w :
  consistent (database w) → consistent (database (handle_all ops w).2).
Proof.
  revert w. induction ops as [|op ops IH]; intros w Hc; [done|].
  simpl. pose proof (handle_consistent op w Hc) as Hc1.
  destruct (handle op w) as [res w1]. simpl in Hc1.
  specialize (IH w1 Hc1). by destruct (handle_all ops w1).
Qed.

(** X4.  Reservations are never deleted or rewritten, and "canceled" is
    final: in a consistent database, whatever requests follow, a stored
    reservation stays under its key with its event and user, and once it is
    canceled it stays canceled. *)
Theorem canceled_is_final ops w k r :
  consistent (database w) →
  reservations (database w) !! k = Some r →
  ∃ r', reservations (database (handle_all ops w).2) !! k = Some r' ∧
        eventId r' = eventId r ∧ userId r' = userId r ∧
        (status r = CANCELED → status r' = CANCELED).
Proof.
  revert w r. induction ops as [|op ops IH]; intros w r Hc Hk; [by exists r|].
  simpl.
  destruct (handle_keeps_reservation op w k r (proj1 Hc) Hk)
    as (r1 & Hk1 & Hev1 & Hus1 & Hst1).
  pose proof (handle_consistent op w Hc) as Hc1.
  destruct (handle op w) as [res w1]. simpl in Hk1, Hc1.
  destruct (IH w1 r1 Hc1 Hk1) as (r' & Hk' & Hev' & Hus' & Hst').
  destruct (handle_all ops w1) as [rs w2]. simpl in *.
  exists r'. repeat split; [done|congruence|congruence|auto].
Qed.

Lemma canceled_is_final_witness :
  ∃ r', reservations
          (database (handle_all [CancelReservation (Some alice) 1;
                                 CreateReservation 10 (Some alice) 1]
                                (world_of booked)).2) !! 1 = Some r' ∧
        eventId r' = 1 ∧ userId r' = 2.
Proof.
  destruct (canceled_is_final [CancelReservation (Some alice) 1;
                               CreateReservation 10 (Some alice) 1]
              (world_of booked) 1 (mkReservation 1 2 CONFIRMED))
    as (r' & H1 & H2 & H3 & _).
  - exact booked_consistent.
  - vm_compute. reflexivity.
  - exists r'. auto.
Defined.

(** ** The instance methods of [Event] *)


(** ** [calculateSpotStatus] *)

(** X6.  [calculateSpotStatus] labels an event "past-event" exactly when
    its date is before the clock; otherwise "fully-booked" exactly when no
    spot is left, "available" exactly when more than five are, and
    "limited" in every other case, negative counts included. *)
Theorem calculateSpotStatus_labels now e :
  (calculateSpotStatus now e = "past-event" ↔ eventDate e < now) ∧
  (calculateSpotStatus now e = "fully-booked" ↔
     now ≤ eventDate e ∧ availableSpots e = 0) ∧
  (calculateSpotStatus now e = "limited" ↔
     now ≤ eventDate e ∧ availableSpots e ≤ 5 ∧ availableSpots e ≠ 0) ∧
  (calculateSpotStatus now e = "available" ↔
     now ≤ eventDate e ∧ 5 < availableSpots e).
Proof.
  unfold calculateSpotStatus.
  destruct (eventDate e <? now) eqn:Hpast;
    [apply Z.ltb_lt in Hpast|apply Z.ltb_ge in Hpast].
  { repeat split; intros; try done; lia. }
  destruct (availableSpots e =? 0) eqn:Hzero;
    [apply Z.eqb_eq in Hzero|apply Z.eqb_neq in Hzero].
  { repeat split; intros; try done; lia. }
  destruct (availableSpots e <=? 5) eqn:Hfew;
    [apply Z.leb_le in Hfew|apply Z.leb_gt in Hfew].
  - repeat split; intros; try done; lia.
  - repeat split; intros; try done; lia.
Qed.

(** X7.  The label tells what a booking does.  For a stored event with a
    non-negative count, and a user who is not the admin owning it and has
    no confirmed reservation for it: when the date of the event is not the
    very instant of the request, [createReservation] answers 201 exactly
    when the label is "limited" or "available".  At that instant the two
    disagree: the label is not "past-event" ([<]), and the booking is
    refused as past ([<=]). *)
Theorem spot_status_predicts_booking now user eid w e :
  events (database w) !! eid = Some e →
  0 ≤ availableSpots e →
  ¬ (role user = RoleAdmin ∧ creatorId e = user_id user) →
  ¬ HasActiveReservation (database w) eid (user_id user) →
  (eventDate e ≠ now →
     (res_status (createReservation now (Some user) eid w).1 = 201 ↔
      calculateSpotStatus now e = "limited" ∨
      calculateSpotStatus now e = "available")) ∧
  (eventDate e = now →
     calculateSpotStatus now e ≠ "past-event" ∧
     createReservation now (Some user) eid w = (Fails.EventInPast, w)).
Proof.
  intros He Hnn Hnot Hnone.
  pose proof (createReservation_tx_unfold now user eid (database w)) as Htx.
  rewrite He in Htx.
  destruct (is_admin user && (creatorId e =? user_id user)) eqn:Hown;
    [by apply is_admin_owner in Hown|].
  apply findOne_confirmed_for in Hnone. rewrite Hnone in Htx.
  unfold createReservation, calculateSpotStatus. split.
  - intros Hinstant.
    destruct (eventDate e <=? now) eqn:Hpast.
    + rewrite (in_transaction_rollback _ _ _ _ Htx).
      apply Z.leb_le in Hpast.
      assert (Hlt : (eventDate e <? now) = true) by (apply Z.ltb_lt; lia).
      rewrite Hlt. split; [done|]. by intros [|].
    + apply Z.leb_gt in Hpast.
      assert (Hlt : (eventDate e <? now) = false) by (apply Z.ltb_ge; lia).
      rewrite Hlt.
      destruct (availableSpots e <=? 0) eqn:Hfull.
      * rewrite (in_transaction_rollback _ _ _ _ Htx).
        apply Z.leb_le in Hfull.
        assert (Hzero : (availableSpots e =? 0) = true) by (apply Z.eqb_eq; lia).
        rewrite Hzero. split; [done|]. by intros [|].
      * rewrite (in_transaction_commit _ _ _ _ _ Htx).
        apply Z.leb_gt in Hfull.
        assert (Hzero : (availableSpots e =? 0) = false) by (apply Z.eqb_neq; lia).
        rewrite Hzero. split; [|done]. intros _.
        destruct (availableSpots e <=? 5); [by left|by right].
  - intros Hinstant. rewrite Hinstant in *.
    rewrite Z.ltb_irrefl. rewrite Z.leb_refl in Htx.
    rewrite (in_transaction_rollback _ _ _ _ Htx). split; [|done].
    destruct (availableSpots e =? 0); [done|].
    by destruct (availableSpots e <=? 5).
Qed.

Lemma spot_status_predicts_booking_witness :
  res_status (createReservation 10 (Some alice) 1 (world_of db1)).1 = 201 ↔
  calculateSpotStatus 10 (fresh_event 1000 2 7) = "limited" ∨
  calculateSpotStatus 10 (fresh_event 1000 2 7) = "available".
Proof.
  destruct (spot_status_predicts_booking 10 alice 1 (world_of db1)
              (fresh_event 1000 2 7)) as [Hiff _].
  - vm_compute. reflexivity.
  - simpl. lia.
  - intros [Hadm _]. discriminate Hadm.
  - intros (k & r & Hk & _). vm_compute in Hk. discriminate Hk.
  - apply Hiff. simpl. lia.
Defined.

(** ** [checkUserReservation] *)

Lemma matching_none P (rs : gmap Z Reservation) :
  (∀ k r, rs !! k = Some r → P r = false) → matching P rs = ∅.
Proof.
  intros Hall. apply map_eq. intros k. rewrite lookup_empty.
  apply eq_None_not_Some. intros [r Hr].
  apply matching_lookup in Hr as [Hk HP]. rewrite (Hall _ _ Hk) in HP. done.
Qed.

Lemma checkUserReservation_none user eid w :
  is_Some (events (database w) !! eid) →
  ¬ HasActiveReservation (database w) eid (user_id user) →
  checkUserReservation (Some user) eid w = Checked false None.
Proof.
  intros [e He] Hnone. unfold checkUserReservation. rewrite He.
  apply findOne_confirmed_for in Hnone. by rewrite Hnone.
Qed.

(** X8.  After a [createReservation] that answered 201,
    [checkUserReservation] for the same user and event reports
    [hasReservation: true] together with the reservation just stored. *)
Theorem check_after_booking now user eid w :
  res_status (createReservation now (Some user) eid w).1 = 201 →
  checkUserReservation (Some user) eid (createReservation now (Some user) eid w).2 =
  Checked true (Some (reservations_seq (database w),
                      mkReservation eid (user_id user) CONFIRMED)).
Proof.
  unfold createReservation.
  pose proof (createReservation_tx_unfold now user eid (database w)) as Htx.
  destruct (events (database w) !! eid) as [e|] eqn:He;
    [|by rewrite (in_transaction_rollback _ _ _ _ Htx)].
  destruct (eventDate e <=? now);
    [by rewrite (in_transaction_rollback _ _ _ _ Htx)|].
  destruct (is_admin user && _);
    [by rewrite (in_transaction_rollback _ _ _ _ Htx)|].
  destruct (head _) eqn:Hfind;
    [by rewrite (in_transaction_rollback _ _ _ _ Htx)|].
  destruct (availableSpots e <=? 0);
    [by rewrite (in_transaction_rollback _ _ _ _ Htx)|].
  intros _. rewrite (in_transaction_commit _ _ _ _ _ Htx).
  unfold createReservation_done, checkUserReservation. cbn [fst snd].
  rewrite database_clearEventCaches. cbn [set_database database events reservations].
  rewrite lookup_alter_eq, He. cbn [fmap option_fmap option_map].
  rewrite findOne_None in Hfind.
  assert (Honly : matching (confirmed_for eid (user_id user))
                    (<[reservations_seq (database w) :=
                         mkReservation eid (user_id user) CONFIRMED]>
                       (reservations (database w))) =
                  {[ reservations_seq (database w) :=
                       mkReservation eid (user_id user) CONFIRMED ]}).
  { unfold matching. rewrite map_filter_insert_True.
    - fold (matching (confirmed_for eid (user_id user)) (reservations (database w))).
      by rewrite (matching_none _ _ Hfind), insert_empty.
    - simpl. by apply confirmed_for_true. }
  by rewrite Honly, map_to_list_singleton.
Qed.

Lemma check_after_booking_witness :
  checkUserReservation (Some alice) 1
    (createReservation 10 (Some alice) 1 (world_of db1)).2 =
  Checked true (Some (1, mkReservation 1 2 CONFIRMED)).
Proof.
  apply (check_after_booking 10 alice 1 (world_of db1)).
  vm_compute. reflexivity.
Defined.

(** X9.  After a [cancelReservation] that answered 200, in a database
    with at most one confirmed reservation per event and user,
    [checkUserReservation] for the owner of the reservation and its event
    reports [hasReservation: false]. *)
Theorem check_after_cancel canceller owner rid w r :
  one_active_per_pair (database w) →
  reservations (database w) !! rid = Some r →
  is_Some (events (database w) !! eventId r) →
  user_id owner = userId r →
  (cancelReservation (Some canceller) rid w).1 = canceled →
  checkUserReservation (Some owner) (eventId r)
    (cancelReservation (Some canceller) rid w).2 = Checked false None.
Proof.
  intros Huniq Hr [e He] Howner Hok.
  destruct (cancel_success _ _ _ Hok) as (r0 & Hr0 & Hconf & _ & ->).
  rewrite Hr in Hr0. injection Hr0 as <-. cbn [snd].
  apply checkUserReservation_none.
  - rewrite database_clearEventCaches. cbn [set_database database events].
    rewrite lookup_alter_eq, He. by eexists.
  - rewrite database_clearEventCaches.
    intros (k & r' & Hk & Hev & Hus & Hst). simpl in Hk.
    apply lookup_alter_Some in Hk as [(<- & r0 & _ & ->)|[Hne Hk]]; [done|].
    apply Hne. symmetry. apply (Huniq k rid r' r); try done. congruence.
Qed.

Lemma check_after_cancel_witness :
  checkUserReservation (Some alice) 1
    (cancelReservation (Some root) 1 (world_of booked)).2 = Checked false None.
Proof.
  apply (check_after_cancel root alice 1 (world_of booked)
           (mkReservation 1 2 CONFIRMED)).
  - exact (proj1 (proj2 booked_consistent)).
  - vm_compute. reflexivity.
  - vm_compute. by eexists.
  - reflexivity.
  - vm_compute. reflexivity.
Defined.

(** ** [getDashboardStats] *)



(** ** Paginated lists *)

Lemma concat_windows {A} (l : list A) (lim n : nat) :
  concat (map (λ p : nat, take lim (drop (p * lim) l)) (seq 0 n)) = take (n * lim) l.
Proof.
  induction n as [|n IH]; [done|].
  rewrite seq_S, map_app, concat_app, IH. simpl. rewrite app_nil_r.
  rewrite take_take_drop. f_equal. lia.
Qed.

Lemma Math_ceil_div_bounds count lim :
  0 ≤ count → 1 ≤ lim →
  0 ≤ Math_ceil_div count lim ∧ count ≤ Math_ceil_div count lim * lim ∧
  (Math_ceil_div count lim - 1) * lim < count + (if count =? 0 then 1 else 0).
Proof.
  intros Hcount Hlim. unfold Math_ceil_div.
  pose proof (Z.div_mod (- count) lim ltac:(lia)) as Hdm.
  pose proof (Z.mod_pos_bound (- count) lim ltac:(lia)) as Hmod.
  destruct (count =? 0) eqn:Hz; [apply Z.eqb_eq in Hz|apply Z.eqb_neq in Hz];
    repeat split; nia.
Qed.

Lemma reservation_page_rows nf wher q d :
  (reservation_page nf wher q d).1 =
  take (Z.to_nat (default 10 (q_limit q)))
       (drop (Z.to_nat ((default 1 (q_page q) - 1) * default 10 (q_limit q)))
             (nf (map_to_list (matching wher (reservations d))))).
Proof. done. Qed.

Lemma reservation_page_at nf wher p lim st ev us d :
  (reservation_page nf wher (mkListQuery (Some p) lim st ev us) d).1 =
  take (Z.to_nat (default 10 lim))
       (drop (Z.to_nat ((p - 1) * default 10 lim))
             (nf (map_to_list (matching wher (reservations d))))).
Proof. done. Qed.

(** X11.  With a limit of at least 1, the pages of a list of reservations
    cover what the query finds: pages 1 to [totalPages], one after the
    other, are all the rows found, in order and each once; no page holds
    more than [limit] rows; every page after [totalPages] is empty; and
    [totalPages] is 0 exactly when nothing is found. *)
Theorem pages_cover_the_rows nf wher q d :
  1 ≤ default 10 (q_limit q) →
  let fetch := λ q', reservation_page nf wher q' d in
  let found := nf (map_to_list (matching wher (reservations d))) in
  let pg := (fetch q).2 in
  pg_total pg = Z.of_nat (length found) ∧
  first_pages fetch q (Z.to_nat (pg_totalPages pg)) = found ∧
  (length (fetch q).1 ≤ Z.to_nat (default 10%Z (q_limit q)))%nat ∧
  (∀ p, pg_totalPages pg < p →
        (fetch (mkListQuery (Some p) (q_limit q) (q_status q)
                            (q_eventId q) (q_userId q))).1 = []) ∧
  (pg_totalPages pg = 0 ↔ found = []).
Proof.
  intros Hlim fetch found pg. subst fetch pg.
  set (lim := default 10 (q_limit q)) in *.
  cbn [snd reservation_page pg_total pg_totalPages]. fold found. fold lim.
  destruct (Math_ceil_div_bounds (Z.of_nat (length found)) lim ltac:(lia) Hlim)
    as (Hnn & Hcover & Htight).
  split; [done|]. split; [|split; [|split]].
  - unfold first_pages.
    erewrite map_ext; [rewrite (concat_windows found (Z.to_nat lim))|].
    + apply take_ge. nia.
    + intros p. rewrite reservation_page_at. fold lim. fold found. do 2 f_equal.
      replace (Z.of_nat (S p) - 1) with (Z.of_nat p) by lia.
      rewrite Z2Nat.inj_mul by lia. by rewrite Nat2Z.id.
  - rewrite reservation_page_rows. fold found. fold lim.
    rewrite length_take. lia.
  - intros p Hp. rewrite reservation_page_at. fold lim. fold found.
    rewrite drop_ge; [by destruct (Z.to_nat lim)|].
    assert (Math_ceil_div (Z.of_nat (length found)) lim * lim ≤ (p - 1) * lim) by nia.
    apply Nat2Z.inj_le. rewrite Z2Nat.id by nia. lia.
  - split.
    + intros Hzero. rewrite Hzero in Hcover. apply length_zero_iff_nil. lia.
    + intros Hnil. by rewrite Hnil.
Qed.

Lemma pages_cover_the_rows_witness :
  first_pages (λ q', reservation_page reverse (λ _, true) q' (database two_bookings))
              (mkListQuery None (Some 1) None None None) 2 =
  reverse (map_to_list (matching (λ _, true) (reservations (database two_bookings)))).
Proof.
  destruct (pages_cover_the_rows reverse (λ _, true)
              (mkListQuery None (Some 1) None None None) (database two_bookings))
    as (_ & Hall & _).
  - simpl. lia.
  - exact Hall.
Defined.

(** X12.  [getMyReservations] lists only reservations that are stored and
    belong to the requester, and its [total] is the number of the
    requester's reservations that pass the status filter, whatever the page
    asked for. *)
Theorem getMyReservations_own_rows nf user q w :
  (∀ l, nf l ≡ₚ l) →
  ∃ rows pg,
    getMyReservations nf (Some user) q w = inr (rows, pg) ∧
    (∀ k r, (k, r) ∈ rows →
            reservations (database w) !! k = Some r ∧ userId r = user_id user) ∧
    pg_total pg =
    Z.of_nat (size (matching (λ r, (userId r =? user_id user) &&
                                   status_condition (q_status q) r)
                             (reservations (database w)))).
Proof.
  intros Hperm. eexists _, _. split; [reflexivity|]. split.
  - intros k r Hin. apply subseteq_take, subseteq_drop in Hin.
    rewrite Hperm in Hin. apply elem_of_map_to_list, matching_lookup in Hin as [Hk HP].
    apply andb_true_iff in HP as [Hown _]. by apply Z.eqb_eq in Hown.
  - cbn [pg_total]. by rewrite Hperm, length_map_to_list.
Qed.

Lemma getMyReservations_own_rows_witness :
  ∃ rows pg,
    getMyReservations reverse (Some alice) (mkListQuery None None None None None)
                      two_bookings = inr (rows, pg) ∧
    pg_total pg = 1.
Proof.
  destruct (getMyReservations_own_rows reverse alice
              (mkListQuery None None None None None) two_bookings)
    as (rows & pg & Heq & _ & Htotal).
  - intros l. apply reverse_Permutation.
  - exists rows, pg. split; [exact Heq|]. rewrite Htotal. vm_compute. reflexivity.
Defined.

(** ** What the invalidation leaves alone *)

Lemma cache_del key w :
  cache (cacheUtils.del key w) = cache w ∨
  cache (cacheUtils.del key w) = cache w ∖ {[ key ]}.
Proof. unfold cacheUtils.del. simpl. destruct (default false _); auto. Qed.

Lemma cache_delPattern p w :
  cache (cacheUtils.delPattern p w) = cache w ∨
  cache (cacheUtils.delPattern p w) =
  cache w ∖ filter (λ k, glob_match p k = true) (cache w).
Proof.
  unfold cacheUtils.delPattern. simpl.
  destruct (default false (head (redis_faults w))); [auto|]. simpl.
  case_bool_decide; [|auto]. simpl.
  destruct (default false _); auto.
Qed.

Lemma clearEventCaches_keeps eid w k :
  k ∈ cache w →
  k ≠ CACHE_KEYS.POPULAR_EVENTS → k ≠ CACHE_KEYS.EVENT_DETAILS eid →
  glob_match "events:page:*" k = false →
  k ∈ cache (clearEventCaches eid w).
Proof.
  intros Hin Hpop Hdet Hglob. unfold clearEventCaches. simpl.
  set (w1 := cacheUtils.del CACHE_KEYS.POPULAR_EVENTS w).
  set (w2 := cacheUtils.del (CACHE_KEYS.EVENT_DETAILS eid) w1).
  assert (H1 : k ∈ cache w1).
  { subst w1. destruct (cache_del CACHE_KEYS.POPULAR_EVENTS w) as [->| ->]; [done|].
    apply elem_of_difference. split; [done|]. by rewrite elem_of_singleton. }
  assert (H2 : k ∈ cache w2).
  { subst w2. destruct (cache_del (CACHE_KEYS.EVENT_DETAILS eid) w1) as [->| ->];
      [done|].
    apply elem_of_difference. split; [done|]. by rewrite elem_of_singleton. }
  destruct (cache_delPattern "events:page:*" w2) as [->| ->]; [done|].
  apply elem_of_difference. split; [done|].
  intros [Hm _]%elem_of_filter. congruence.
Qed.

Lemma clearEventCaches_shrinks eid w k :
  k ∈ cache (clearEventCaches eid w) → k ∈ cache w.
Proof.
  unfold clearEventCaches. simpl.
  set (w1 := cacheUtils.del CACHE_KEYS.POPULAR_EVENTS w).
  set (w2 := cacheUtils.del (CACHE_KEYS.EVENT_DETAILS eid) w1).
  intros Hin.
  assert (H2 : k ∈ cache w2).
  { destruct (cache_delPattern "events:page:*" w2) as [Heq|Heq];
      rewrite Heq in Hin; [done|]. by apply elem_of_difference in Hin as [? _]. }
  assert (H1 : k ∈ cache w1).
  { subst w2. destruct (cache_del (CACHE_KEYS.EVENT_DETAILS eid) w1) as [Heq|Heq];
      rewrite Heq in H2; [done|]. by apply elem_of_difference in H2 as [? _]. }
  subst w1. destruct (cache_del CACHE_KEYS.POPULAR_EVENTS w) as [Heq|Heq];
    rewrite Heq in H1; [done|]. by apply elem_of_difference in H1 as [? _].
Qed.

(** X13.  [clearEventCaches] for one event never adds a key to the cache
    and, whatever Redis does, leaves in place the details of every other
    event and the session and profile entries of the users. *)
Theorem clearEventCaches_spares_other_keys eid w :
  (∀ k, k ∈ cache (clearEventCaches eid w) → k ∈ cache w) ∧
  (∀ j, j ≠ eid → CACHE_KEYS.EVENT_DETAILS j ∈ cache w →
        CACHE_KEYS.EVENT_DETAILS j ∈ cache (clearEventCaches eid w)) ∧
  (∀ u, CACHE_KEYS_USER.USER_SESSION u ∈ cache w →
        CACHE_KEYS_USER.USER_SESSION u ∈ cache (clearEventCaches eid w)) ∧
  (∀ u, CACHE_KEYS_USER.USER_PROFILE u ∈ cache w →
        CACHE_KEYS_USER.USER_PROFILE u ∈ cache (clearEventCaches eid w)).
Proof.
  split; [apply clearEventCaches_shrinks|]. split; [|split].
  - intros j Hne Hin. apply clearEventCaches_keeps; try done.
    unfold CACHE_KEYS.EVENT_DETAILS. intros Heq.
    apply (inj (String.app "event:")) in Heq. by apply (inj pretty) in Heq.
  - intros u Hin. by apply clearEventCaches_keeps.
  - intros u Hin. by apply clearEventCaches_keeps.
Qed.

Lemma sent_delPattern_exact p w :
  ∃ more, redis_sent (cacheUtils.delPattern p w) = redis_sent w ++ KEYS p :: more ∧
          (more = [] ∨ ∃ ks, ks ≠ [] ∧ more = [DEL ks]).
Proof.
  unfold cacheUtils.delPattern. simpl.
  destruct (default false (head (redis_faults w))); [exists []; auto|]. simpl.
  case_bool_decide as Hsome; [|exists []; auto]. simpl.
  set (keys := filter _ (cache w)) in *.
  assert (Hne : elements keys ≠ []).
  { intros Hnil. apply elements_empty_inv in Hnil.
    apply leibniz_equiv in Hnil. rewrite Hnil, size_empty in Hsome. lia. }
  destruct (default false _); simpl; rewrite <- app_assoc;
    (eexists; split; [reflexivity|right; eauto]).
Qed.

Lemma sent_clearEventCaches_exact eid w :
  ∃ more, redis_sent (clearEventCaches eid w) = redis_sent w ++ signals eid ++ more ∧
          (more = [] ∨ ∃ ks, ks ≠ [] ∧ more = [DEL ks]).
Proof.
  unfold clearEventCaches. simpl.
  destruct (sent_delPattern_exact "events:page:*"
              (cacheUtils.del (CACHE_KEYS.EVENT_DETAILS eid)
                 (cacheUtils.del CACHE_KEYS.POPULAR_EVENTS w)))
    as (more & -> & Hmore).
  exists more. split; [|done]. by rewrite !sent_del, <- !app_assoc.
Qed.

(** X14.  The commands [clearEventCaches] sends are the two single-key
    [DEL]s, the [KEYS] and at most one more [DEL]; none of its [DEL]s has
    an empty list of keys. *)
Theorem clearEventCaches_never_sends_empty_DEL eid w :
  ∃ more, sent_between w (clearEventCaches eid w) = signals eid ++ more ∧
          (length more ≤ 1)%nat ∧
          ∀ ks, DEL ks ∈ sent_between w (clearEventCaches eid w) → ks ≠ [].
Proof.
  destruct (sent_clearEventCaches_exact eid w) as (more & Hsent & Hmore).
  unfold sent_between. rewrite Hsent, drop_app_length.
  exists more. split; [done|]. split.
  - destruct Hmore as [->|(ks & _ & ->)]; simpl; lia.
  - intros ks Hin. apply elem_of_app in Hin as [Hin|Hin].
    + unfold signals in Hin. rewrite !elem_of_cons in Hin.
      destruct Hin as [[= ->]|[[= ->]|[Hin|Hin]]]; try done.
      by apply elem_of_nil in Hin.
    + destruct Hmore as [->|(ks' & Hne & ->)].
      * by apply elem_of_nil in Hin.
      * apply list_elem_of_singleton in Hin. by injection Hin as ->.
Qed.

(** ** [invalidateCache] *)

Lemma invalidateCache_cons key keys w :
  invalidateCache (key :: keys) w =
  invalidateCache keys
    (console_add (ConsoleLog ("Invalidated cache key: " +:+ key))
                 (cacheUtils.del key w)).
Proof. done. Qed.

(** X15.  [invalidateCache(keys)] sends one single-key [DEL] per key, in
    the order of the list, whatever Redis answers; it never touches the
    database and logs one error per rejected command; and when Redis
    accepts the commands, exactly the listed keys are gone from the
    cache. *)
Theorem invalidateCache_deletes_the_keys keys w :
  let w' := invalidateCache keys w in
  database w' = database w ∧
  sent_between w w' = map (λ k, DEL [k]) keys ∧
  errors_logged w w' = rejected_between w w' ∧
  (redis_up w → cache w' = cache w ∖ list_to_set keys).
Proof.
  cbn zeta.
  assert (Hall : database (invalidateCache keys w) = database w ∧
                 redis_sent (invalidateCache keys w) =
                   redis_sent w ++ map (λ k, DEL [k]) keys ∧
                 accounted w (invalidateCache keys w) ∧
                 (redis_up w →
                  cache (invalidateCache keys w) = cache w ∖ list_to_set keys)).
  { revert w. induction keys as [|key keys IH]; intros w.
    - cbn [invalidateCache foldl map list_to_set]. rewrite app_nil_r.
      repeat split; [apply accounted_refl|]. intros _.
      by rewrite difference_empty_L.
    - rewrite invalidateCache_cons.
      set (w1 := console_add _ (cacheUtils.del key w)).
      destruct (IH w1) as (Hdb & Hsent & Hacc & Hcache).
      assert (Hsent1 : redis_sent w1 = redis_sent w ++ [DEL [key]])
        by (subst w1; simpl; apply sent_del).
      split; [|split; [|split]].
      + rewrite Hdb. subst w1. simpl. apply database_del.
      + rewrite Hsent, Hsent1, <- app_assoc. done.
      + eapply accounted_trans; [|exact Hacc].
        eapply accounted_trans; [apply accounted_del|apply accounted_console_log].
      + intros Hup. destruct (del_up key w Hup) as [Hup1 Hc1].
        rewrite Hcache by exact Hup1. subst w1. simpl. rewrite Hc1.
        apply difference_difference_l_L. }
  destruct Hall as (Hdb & Hsent & Hacc & Hcache).
  split; [done|]. split; [|split; [|done]].
  - unfold sent_between. by rewrite Hsent, drop_app_length.
  - by apply accounted_errors.
Qed.

Lemma invalidateCache_deletes_the_keys_witness :
  elements (cache (invalidateCache ["event:1"; "event:2"]
                     (mkWorld db1 (cache flaky) [] [] []))) =
  elements (cache flaky ∖ list_to_set ["event:1"; "event:2"]).
Proof.
  destruct (invalidateCache_deletes_the_keys ["event:1"; "event:2"]
              (mkWorld db1 (cache flaky) [] [] [])) as (_ & _ & _ & Hcache).
  rewrite Hcache; [reflexivity|]. unfold redis_up. simpl. constructor.
Defined.

(** ** [updateEvent] and the reserved spots *)

(** X16.  Whatever the request, [updateEvent] keeps the reservations, the
    creator of every event and, for every event, the number of reserved
    spots [maxCapacity - availableSpots]. *)
Theorem updateEvent_keeps_reserved req_user id body w j e :
  events (database w) !! j = Some e →
  let w' := (updateEvent req_user id body w).2 in
  reservations (database w') = reservations (database w) ∧
  ∃ e', events (database w') !! j = Some e' ∧
        creatorId e' = creatorId e ∧
        maxCapacity e' - availableSpots e' = maxCapacity e - availableSpots e.
Proof.
  intros Hj. cbn zeta. unfold updateEvent.
  destruct (events (database w) !! id) as [e0|] eqn:He0; [|by eauto].
  destruct (not_owner_nor_admin req_user e0); [by eauto|].
  destruct (handle_maxCapacity body e0 (plain_updateData body)) as [res|u] eqn:Hu;
    [by eauto|].
  destruct (update_accepted u); [|by eauto].
  cbn [snd]. rewrite database_clearEventCaches.
  cbn [set_database database Event_update events reservations].
  split; [done|].
  destruct (decide (id = j)) as [->|Hne].
  - rewrite lookup_alter_eq, Hj. rewrite Hj in He0. injection He0 as <-.
    eexists. split; [reflexivity|]. split; [done|].
    apply handle_maxCapacity_inr in Hu as [->|(n & _ & _ & _ & ->)]; simpl; lia.
  - rewrite lookup_alter_ne by done. eauto.
Qed.

Lemma updateEvent_keeps_reserved_witness :
  ∃ e', events (database (updateEvent (Some root) 1 (resize_body 9)
                            (world_of booked)).2) !! 1 = Some e' ∧
        maxCapacity e' - availableSpots e' = 1.
Proof.
  destruct (updateEvent_keeps_reserved (Some root) 1 (resize_body 9) (world_of booked)
              1 (set_availableSpots 1 (fresh_event 1000 2 7)))
    as (_ & e' & He' & _ & Hres).
  - vm_compute. reflexivity.
  - exists e'. split; [exact He'|]. rewrite Hres. reflexivity.
Defined.

(** ** [requireRole] *)

(** X17.  [requireRole("user")] lets through exactly the requests that
    [requireUser] lets through, with the same refusal; [requireAdmin] lets
    through exactly the admins, so that behind it [updateEvent] never
    answers 403: its ownership check cannot fail, and a user who created an
    event but is no admin is stopped before the handler. *)
Theorem requireAdmin_guards_updateEvent req_user :
  requireRole RoleUser req_user = requireUser req_user ∧
  (requireAdmin req_user = None ↔ ∃ u, req_user = Some u ∧ role u = RoleAdmin) ∧
  (requireAdmin req_user = None →
     ∀ id body w, res_status (updateEvent req_user id body w).1 ≠ 403) ∧
  (∀ u, req_user = Some u → role u = RoleUser →
        requireAdmin req_user = Some (json_error 403 "Insufficient permissions")).
Proof.
  unfold requireAdmin, requireRole, requireUser.
  split; [|split; [|split]].
  - destruct req_user as [[uid []]|]; done.
  - destruct req_user as [[uid []]|]; simpl; split; try done.
    + intros (u & [= <-] & Hrole). done.
    + intros _. by eexists.
    + intros (u & [= ]& _).
  - destruct req_user as [[uid []]|]; simpl; try done.
    intros _ id body w. unfold updateEvent.
    destruct (events (database w) !! id) as [e|]; [|done].
    cbn [not_owner_nor_admin is_admin role]. simpl.
    destruct (handle_maxCapacity body e (plain_updateData body)) as [res|u] eqn:Hu;
      [|by destruct (update_accepted u)].
    unfold handle_maxCapacity in Hu.
    destruct (truthy_number _); [|done].
    case_bool_decide; [|done].
    destruct (_ <? _); [|done]. by injection Hu as <-.
  - intros u -> Hrole. by rewrite Hrole.
Qed.

(** ** [createEvent] *)

(** X18.  [createEvent] keeps the ledger consistent when the new key is
    not referred to by any reservation: it never touches the reservations
    or the other events; when it answers 201 the new event is stored under
    the new key with a capacity of at least 1 and all of its spots
    available; when it does not, the database is as before. *)
Theorem createEvent_keeps_ledger others req_user id body w :
  consistent (database w) →
  (∀ k r, reservations (database w) !! k = Some r → eventId r ≠ id) →
  let run := createEvent others req_user id body w in
  consistent (database run.2) ∧
  reservations (database run.2) = reservations (database w) ∧
  (∀ j, j ≠ id → events (database run.2) !! j = events (database w) !! j) ∧
  (res_status run.1 = 201 →
     events (database w) !! id = None ∧
     ∃ e, events (database run.2) !! id = Some e ∧
          maxCapacity e = new_maxCapacity body ∧
          availableSpots e = maxCapacity e ∧ 1 ≤ maxCapacity e) ∧
  (res_status run.1 ≠ 201 → database run.2 = database w).
Proof.
  intros Hc Hrefs run. subst run. unfold createEvent.
  destruct req_user as [user|]; [|split; [exact Hc|by repeat split]].
  set (row := mkEvent _ _ _ _ _ _ _ _).
  destruct (Event_validate others row && _) eqn:Hvalid;
    [|split; [exact Hc|by repeat split]].
  apply andb_true_iff in Hvalid as [Hvalid Hfree].
  apply bool_decide_eq_true in Hfree.
  apply andb_true_iff in Hvalid as [Hmin _]. apply Z.leb_le in Hmin.
  subst row. cbn [maxCapacity] in Hmin.
  assert (Hhook : beforeCreate
                    (mkEvent (new_name body) (new_description body)
                       (new_eventDate body) (new_location body)
                       (new_onlineLink body) (new_maxCapacity body)
                       (new_maxCapacity body) (user_id user)) =
                  mkEvent (new_name body) (new_description body)
                       (new_eventDate body) (new_location body)
                       (new_onlineLink body) (new_maxCapacity body)
                       (new_maxCapacity body) (user_id user)).
  { unfold beforeCreate. cbn [availableSpots].
    destruct (new_maxCapacity body =? 0) eqn:Hz; [|done].
    apply Z.eqb_eq in Hz. lia. }
  rewrite Hhook. cbn [fst snd]. rewrite database_clearEventCaches.
  cbn [set_database database events reservations].
  destruct Hc as (Hseq & Huniq & Hled).
  split; [|split; [done|split; [|split]]].
  - split; [done|split; [done|]].
    intros j e Hj. cbn [events reservations] in *.
    apply lookup_insert_Some in Hj as [[<- <-]|[Hne Hj]]; [|by apply Hled].
    cbn [availableSpots maxCapacity]. unfold count_confirmed.
    rewrite matching_none, map_size_empty; [lia|].
    intros k r Hk. unfold confirmed_at.
    destruct (eventId r =? id) eqn:Heq; [|done].
    apply Z.eqb_eq in Heq. by destruct (Hrefs _ _ Hk).
  - intros j Hne. by rewrite lookup_insert_ne.
  - intros _. split; [done|]. eexists. rewrite lookup_insert_eq.
    split; [reflexivity|]. done.
  - done.
Qed.

Lemma createEvent_keeps_ledger_witness :
  consistent (database (createEvent (λ _, true) (Some root) 2
                          (mkCreateEventRequest "Talk" None 5000 None None 30)
                          (world_of booked)).2) ∧
  (availableSpots <$>
     events (database (createEvent (λ _, true) (Some root) 2
                         (mkCreateEventRequest "Talk" None 5000 None None 30)
                         (world_of booked)).2) !! 2) = Some 30.
Proof.
  destruct (createEvent_keeps_ledger (λ _, true) (Some root) 2
              (mkCreateEventRequest "Talk" None 5000 None None 30)
              (world_of booked)) as (Hc & _).
  - exact booked_consistent.
  - intros k r Hk. simpl in Hk.
    apply lookup_singleton_Some in Hk as [_ <-]. done.
  - split; [exact Hc|]. vm_compute. reflexivity.
Defined.

(** ** The cache key of [getAllEvents] *)

Lemma append_assoc (s1 s2 s3 : string) : (s1 +:+ s2) +:+ s3 = s1 +:+ s2 +:+ s3.
Proof.
  induction s1 as [|c s1 IH]; [done|].
  change (String c ((s1 +:+ s2) +:+ s3) = String c (s1 +:+ s2 +:+ s3)).
  by rewrite IH.
Qed.

Lemma truthy_nonempty c s : truthy_string (Some (String c s)) = Some (String c s).
Proof. done. Qed.

(** X19.  The cache key of [getAllEvents] does not keep the filters apart.
    A search for the name "all" gets the key of the list without a name
    filter; and for every non-empty [s1] and every [s2], the search for the
    name [s1 ++ ":location:" ++ s2] without a location gets the key of the
    search for the name [s1] at the location [s2 ++ ":location:all"]. *)
Theorem getAllEvents_cacheKey_collisions page lim date :
  (∀ loc, getAllEvents_cacheKey page lim date (Some "all") loc =
          getAllEvents_cacheKey page lim date None loc) ∧
  (∀ s1 s2, s1 ≠ "" →
     getAllEvents_cacheKey page lim date (Some (s1 +:+ ":location:" +:+ s2)) None =
     getAllEvents_cacheKey page lim date (Some s1) (Some (s2 +:+ ":location:all"))).
Proof.
  split; [done|]. intros s1 s2 Hne. unfold getAllEvents_cacheKey. f_equal. f_equal.
  destruct s1 as [|c s1]; [done|].
  assert (Hloc : truthy_string (Some (s2 +:+ ":location:all")) =
                 Some (s2 +:+ ":location:all")) by (by destruct s2).
  assert (Hname : truthy_string (Some (String c s1 +:+ ":location:" +:+ s2)) =
                  Some (String c s1 +:+ ":location:" +:+ s2)) by done.
  rewrite Hloc, Hname, truthy_nonempty.
  change (truthy_string None) with (@None string).
  cbn [default from_option id].
  generalize (default "all" (truthy_string date)). intros d.
  do 2 f_equal. by rewrite !append_assoc.
Qed.

Lemma getAllEvents_cacheKey_collisions_witness :
  getAllEvents_cacheKey 1 10 None (Some "a:location:b") None =
  getAllEvents_cacheKey 1 10 None (Some "a") (Some "b:location:all").
Proof.
  destruct (getAllEvents_cacheKey_collisions 1 10 None) as [_ Hcol].
  apply (Hcol "a" "b"). discriminate.
Defined.

(** ** Book, then cancel *)

(** X20.  When [createReservation] answers 201 and the same user then
    cancels the reservation just made, the cancel succeeds, the reservation
    is stored as canceled, and table [events] is exactly what it was before
    the booking. *)
Theorem book_then_cancel now user eid w :
  res_status (createReservation now (Some user) eid w).1 = 201 →
  let rid := reservations_seq (database w) in
  let run := cancelReservation (Some user) rid
               (createReservation now (Some user) eid w).2 in
  run.1 = canceled ∧
  reservations (database run.2) !! rid =
    Some (mkReservation eid (user_id user) CANCELED) ∧
  events (database run.2) = events (database w).
Proof.
  unfold createReservation.
  pose proof (createReservation_tx_unfold now user eid (database w)) as Htx.
  destruct (events (database w) !! eid) as [e|] eqn:He;
    [|by rewrite (in_transaction_rollback _ _ _ _ Htx)].
  destruct (eventDate e <=? now);
    [by rewrite (in_transaction_rollback _ _ _ _ Htx)|].
  destruct (is_admin user && _);
    [by rewrite (in_transaction_rollback _ _ _ _ Htx)|].
  destruct (head _);
    [by rewrite (in_transaction_rollback _ _ _ _ Htx)|].
  destruct (availableSpots e <=? 0);
    [by rewrite (in_transaction_rollback _ _ _ _ Htx)|].
  intros _. rewrite (in_transaction_commit _ _ _ _ _ Htx).
  unfold createReservation_done. cbv zeta. cbn [fst snd].
  set (w1 := clearEventCaches eid _).
  assert (Hd1 : database w1 =
                mkDB (alter (λ e, set_availableSpots (availableSpots e - 1) e)
                            eid (events (database w)))
                     (<[reservations_seq (database w) :=
                          mkReservation eid (user_id user) CONFIRMED]>
                        (reservations (database w)))
                     (reservations_seq (database w) + 1))
    by (subst w1; by rewrite database_clearEventCaches).
  pose proof (cancelReservation_tx_unfold user (reservations_seq (database w))
                (database w1)) as Hcancel.
  rewrite Hd1 in Hcancel. cbn [reservations events reservations_seq] in Hcancel.
  rewrite lookup_insert_eq in Hcancel. cbn [userId status eventId] in Hcancel.
  rewrite Z.eqb_refl, andb_false_r in Hcancel. simpl in Hcancel.
  rewrite <- Hd1 in Hcancel at 1.
  unfold cancelReservation. rewrite (in_transaction_commit _ _ _ _ _ Hcancel).
  unfold cancelReservation_done. cbn [fst snd].
  rewrite database_clearEventCaches. cbn [set_database database events reservations].
  split; [done|]. split.
  - by rewrite lookup_alter_eq, lookup_insert_eq.
  - apply map_eq. intros j. destruct (decide (eid = j)) as [<-|Hne].
    + rewrite !lookup_alter_eq, He. simpl. f_equal.
      destruct e. unfold set_availableSpots. simpl. f_equal. lia.
    + by rewrite !lookup_alter_ne.
Qed.

Lemma book_then_cancel_witness :
  events (database (cancelReservation (Some alice) 1
                      (createReservation 10 (Some alice) 1 (world_of db1)).2).2) =
  events db1.
Proof.
  destruct (book_then_cancel 10 alice 1 (world_of db1)) as (_ & _ & Hev).
  - vm_compute. reflexivity.
  - exact Hev.
Defined.
